(** * SNESRenderer engine: tile atlas, tile grid, layer stack and the
      demo's tile collision, embedded from [5.8.testhdr.py].

    The Python classes become records with one module per class; a Python
    call that can raise returns a [result].  Integers are [Z]; [//] is floor
    division, which is what [Z.div] computes. *)

From stdpp Require Import base numbers list strings pretty gmap sorting.

Local Open Scope Z_scope.

(** ** Python results and the list operations the engine uses *)

Inductive exn : Set :=
  | IndexError
  | ValueError
  | ZeroDivisionError
  | PygameError.

Inductive result (A : Type) : Type :=
  | Ok (a : A)
  | Raise (e : exn).
Arguments Ok {A} a.
Arguments Raise {A} e.

Global Instance result_ret : MRet result := fun A a => Ok a.
Global Instance result_bind : MBind result := fun A B f m =>
  match m with
  | Ok a => f a
  | Raise e => Raise e
  end.

Global Instance result_fmap : FMap result := fun A B f m =>
  match m with
  | Ok a => Ok (f a)
  | Raise e => Raise e
  end.

Definition is_ok {A} (r : result A) : bool :=
  match r with Ok _ => true | Raise _ => false end.

(** The value of a computation that is known not to raise. *)
Definition the {A} (r : result A) : is_ok r = true → A :=
  match r with
  | Ok a => λ _, a
  | Raise _ => λ H,
      False_rect A (eq_ind false (λ b : bool, if b then False else True) I true H)
  end.

Module Py.

(** [a // b] *)
Definition floordiv (a b : Z) : result Z :=
  if bool_decide (b = 0) then Raise ZeroDivisionError else Ok (a `div` b).

Definition len {A} (l : list A) : Z := Z.of_nat (length l).

(** The position a subscript denotes: a negative subscript counts from
    the end of the list. *)
Definition norm_index {A} (l : list A) (i : Z) : Z :=
  if bool_decide (i < 0) then i + len l else i.

(** [l[i]] *)
Definition getitem {A} (l : list A) (i : Z) : result A :=
  let j := norm_index l i in
  if bool_decide (0 <= j) then
    match l !! Z.to_nat j with
    | Some a => Ok a
    | None => Raise IndexError
    end
  else Raise IndexError.

(** [l[i] = v] *)
Definition setitem {A} (l : list A) (i : Z) (v : A) : result (list A) :=
  let j := norm_index l i in
  if bool_decide (0 <= j < len l) then Ok (<[Z.to_nat j := v]> l)
  else Raise IndexError.

(** [range(n)] *)
Definition range (n : Z) : list Z := Z.of_nat <$> seq 0 (Z.to_nat n).

(** [range(start, stop, step)] for a positive step; fuel bounds the
    number of elements, [stop - start] is always enough. *)
Fixpoint range_from (fuel : nat) (start stop step : Z) : list Z :=
  match fuel with
  | O => []
  | S fuel' =>
      if bool_decide (start < stop)
      then start :: range_from fuel' (start + step) stop step
      else []
  end.

Definition range3 (start stop step : Z) : result (list Z) :=
  if bool_decide (step = 0) then Raise ValueError
  else if bool_decide (0 < step)
       then Ok (range_from (Z.to_nat (stop - start)) start stop step)
       else Ok [].

(** [for a in l: s = body(a, s)], an exception leaving the loop. *)
Fixpoint for_each {A S} (l : list A) (body : A → S → result S) (s : S)
  : result S :=
  match l with
  | [] => Ok s
  | a :: l' => s' ← body a s; for_each l' body s'
  end.

(** [max(a, b)] and [min(a, b)] on integers *)
Definition max (a b : Z) : Z := Z.max a b.
Definition min (a b : Z) : Z := Z.min a b.

End Py.

(** ** pygame surfaces

    A surface is its size and its pixels, row by row.  [create] is
    [pygame.Surface(size, SRCALPHA)], which starts fully transparent and
    refuses a negative size; [subsurface] refuses a rectangle that leaves
    the parent. *)

Definition RGBA : Type := Z * Z * Z * Z.

Module Surface.

Record t : Type := mk { w : nat; h : nat; px : list (list RGBA) }.

Definition get_size (s : t) : Z * Z := (Z.of_nat (w s), Z.of_nat (h s)).
Definition get_width (s : t) : Z := Z.of_nat (w s).
Definition get_height (s : t) : Z := Z.of_nat (h s).

Definition fill (s : t) (c : RGBA) : t :=
  mk (w s) (h s) (replicate (h s) (replicate (w s) c)).

Definition create (size : Z * Z) : result t :=
  let '(sw, sh) := size in
  if bool_decide (0 <= sw ∧ 0 <= sh)
  then Ok (fill (mk (Z.to_nat sw) (Z.to_nat sh) []) (0, 0, 0, 0))
  else Raise PygameError.

(** The pixels of [s] inside the rectangle, as a surface of its own. *)
Definition crop (s : t) (x y rw rh : Z) : t :=
  mk (Z.to_nat rw) (Z.to_nat rh)
     ((λ row, take (Z.to_nat rw) (drop (Z.to_nat x) row))
        <$> take (Z.to_nat rh) (drop (Z.to_nat y) (px s))).

Definition subsurface (s : t) (rect : Z * Z * Z * Z) : result t :=
  let '(x, y, rw, rh) := rect in
  if bool_decide (0 <= x ∧ 0 <= y ∧ 0 <= rw ∧ 0 <= rh
                  ∧ x + rw <= Z.of_nat (w s) ∧ y + rh <= Z.of_nat (h s))
  then Ok (crop s x y rw rh)
  else Raise ValueError.

(** [pygame.Surface(size)]: no per-pixel alpha, every pixel black. *)
Definition create_opaque (size : Z * Z) : result t :=
  let '(sw, sh) := size in
  if bool_decide (0 <= sw ∧ 0 <= sh)
  then Ok (fill (mk (Z.to_nat sw) (Z.to_nat sh) []) (0, 0, 0, 255))
  else Raise PygameError.

(** [dest.blit(src, pos)] for a source without per-pixel alpha: the
    pixels of [src] replace those of [dest] they cover. *)
Definition blit (dest src : t) (pos : Z * Z) : t :=
  let '(dx, dy) := pos in
  let pick (j i : nat) (p : RGBA) : RGBA :=
    let sj := Z.of_nat j - dy in
    let si := Z.of_nat i - dx in
    if bool_decide (0 <= sj ∧ 0 <= si) then
      match px src !! Z.to_nat sj with
      | Some row => default p (row !! Z.to_nat si)
      | None => p
      end
    else p in
  mk (w dest) (h dest) (imap (λ j row, imap (pick j) row) (px dest)).

(** [convert_alpha] changes the pixel format, not the pixels. *)
Definition convert_alpha (s : t) : t := s.

Definition transparent (s : t) : Prop :=
  Forall (Forall (λ p : RGBA, p.2 = 0)) (px s).

End Surface.

(** ** TileSet *)

Module TileSet.

Record t : Type := mk { tiles : list Surface.t; tile_size_px : Z }.

(** [TileSet.__init__] *)
Definition init (surface : Surface.t) (tile_size : Z) : result t :=
  let '(w, h) := Surface.get_size surface in
  num_tiles_x ← Py.floordiv w tile_size;
  num_tiles_y ← Py.floordiv h tile_size;
  tiles ← Py.for_each (Py.range num_tiles_y) (λ ty_idx tiles,
    Py.for_each (Py.range num_tiles_x) (λ tx_idx tiles,
      let tx := tx_idx * tile_size in
      let ty := ty_idx * tile_size in
      sub ← Surface.subsurface surface (tx, ty, tile_size, tile_size);
      Ok (tiles ++ [Surface.convert_alpha sub])) tiles) [];
  Ok (mk tiles tile_size).

(** [TileSet.get] *)
Definition get (self : t) (index : Z) : result Surface.t :=
  if bool_decide (tiles self = []) then
    dummy_tile ← Surface.create (tile_size_px self, tile_size_px self);
    Ok (Surface.fill dummy_tile (0, 0, 0, 0))
  else if bool_decide (0 <= index < Py.len (tiles self)) then
    Py.getitem (tiles self) index
  else
    Py.getitem (tiles self) 0.

(** [TileSet.__len__] *)
Definition len (self : t) : Z := Py.len (tiles self).

End TileSet.

(** ** TileMap *)

Module TileMap.

Record t : Type := mk {
  width : Z;
  height : Z;
  map_data : list (list Z);
  priority : Z;
  tileset : TileSet.t
}.

(** [TileMap.__init__]: [[0] * width for _ in range(height)] *)
Definition init (width height : Z) (tileset : TileSet.t) (priority : Z) : t :=
  mk width height
     ((λ _, replicate (Z.to_nat width) 0) <$> Py.range height)
     priority tileset.

Definition warning (x y : Z) : string :=
  "Warning: Tile coordinates (" +:+ pretty x +:+ ", " +:+ pretty y
    +:+ ") are out of map bounds.".

(** [TileMap.set_tile]: the new state of the map and the lines printed
    to [sys.stderr]. *)
Definition set_tile (self : t) (x y index : Z) : result (t * list string) :=
  if bool_decide (0 <= y < height self) && bool_decide (0 <= x < width self)
  then
    row ← Py.getitem (map_data self) y;
    row' ← Py.setitem row x index;
    rows' ← Py.setitem (map_data self) y row';
    Ok (mk (width self) (height self) rows' (priority self) (tileset self), [])
  else
    Ok (self, [warning x y]).

(** [TileMap.get_tile_index] *)
Definition get_tile_index (self : t) (x y : Z) : result Z :=
  if bool_decide (0 <= y < height self) && bool_decide (0 <= x < width self)
  then
    row ← Py.getitem (map_data self) y;
    Py.getitem row x
  else Ok (-1).

(** The shape [__init__] builds and [set_tile] keeps: [height] rows of
    [width] cells. *)
Definition rectangular (self : t) : Prop :=
  Py.len (map_data self) = height self
  ∧ Forall (λ row, Py.len row = width self) (map_data self).

End TileMap.

(** ** Sprite and Rect *)

Module Rect.

(** [pygame.Rect(x, y, w, h)] and the four attributes the game reads. *)
Record t : Type := mk { x : Z; y : Z; w : Z; h : Z }.

Definition left (r : t) : Z := x r.
Definition top (r : t) : Z := y r.
Definition right (r : t) : Z := x r + w r.
Definition bottom (r : t) : Z := y r + h r.

End Rect.

Module Sprite.

Record t : Type := mk {
  surface : Surface.t;
  x : Z;
  y : Z;
  width : Z;
  height : Z;
  priority : Z
}.

(** [Sprite.__init__] *)
Definition init (surface : Surface.t) (x y priority : Z) : t :=
  mk (Surface.convert_alpha surface) x y
     (Surface.get_width surface) (Surface.get_height surface) priority.

(** [Sprite.get_rect] *)
Definition get_rect (self : t) : Rect.t :=
  Rect.mk (x self) (y self) (width self) (height self).

(** [self.x = v] and [self.y = v] *)
Definition set_x (self : t) (v : Z) : t :=
  mk (surface self) v (y self) (width self) (height self) (priority self).
Definition set_y (self : t) (v : Z) : t :=
  mk (surface self) (x self) v (width self) (height self) (priority self).

(** Both coordinates at once, and the pair of them. *)
Definition place (self : t) (x y : Z) : t := set_y (set_x self x) y.
Definition position (self : t) : Z * Z := (x self, y self).

End Sprite.

(** ** Objects handed to the renderer

    [add_layer] takes any object and asks it for attributes by name.  A
    tile map and a sprite answer with their slots and methods; any other
    object is its integer attributes and the names of its methods. *)

Inductive object : Type :=
  | OTileMap (tm : TileMap.t)
  | OSprite (s : Sprite.t)
  | OOther (fields : gmap string Z) (methods : gset string).

Definition TileMap_attrs : list string :=
  ["width"; "height"; "map_data"; "priority"; "tileset";
   "set_tile"; "get_tile_index"; "draw"]%string.

Definition Sprite_attrs : list string :=
  ["surface"; "x"; "y"; "width"; "height"; "priority"; "draw"; "get_rect"]%string.

(** [hasattr(o, name)] *)
Definition hasattr (o : object) (name : string) : bool :=
  match o with
  | OTileMap _ => bool_decide (name ∈ TileMap_attrs)
  | OSprite _ => bool_decide (name ∈ Sprite_attrs)
  | OOther fields methods =>
      bool_decide (is_Some (fields !! name)) || bool_decide (name ∈ methods)
  end.

(** [getattr(o, "priority", dflt)] *)
Definition getattr_priority (o : object) (dflt : Z) : Z :=
  match o with
  | OTileMap tm => TileMap.priority tm
  | OSprite s => Sprite.priority s
  | OOther fields _ => default dflt (fields !! "priority"%string)
  end.

(** [l.sort(key=key)] on integer keys.  Python's sort is stable, and a
    stable sort has one possible result, computed here by insertion: an
    element goes in front of the first one whose key is not smaller. *)
Fixpoint sort_insert {A} (key : A → Z) (a : A) (l : list A) : list A :=
  match l with
  | [] => [a]
  | b :: l' =>
      if bool_decide (key a <= key b) then a :: b :: l'
      else b :: sort_insert key a l'
  end.

Definition list_sort {A} (key : A → Z) (l : list A) : list A :=
  foldr (sort_insert key) [] l.

(** ** SNESRenderer

    The layer list holds the objects by value: no code of the engine
    changes the priority of a layer once it is made. *)

Module SNESRenderer.

Record t : Type := mk {
  scale : Z;
  logical_size : Z * Z;
  layers : list object
}.

(** [SNESRenderer.__init__] (the window and the clock are pygame's) *)
Definition init (window_scale logical_width logical_height : Z) : t :=
  mk window_scale (logical_width, logical_height) [].

(** [SNESRenderer.add_layer] *)
Definition add_layer (self : t) (layer : object) : result t :=
  if negb (hasattr layer "draw") || negb (hasattr layer "priority")
  then Raise ValueError
  else
    let appended := layers self ++ [layer] in
    Ok (mk (scale self) (logical_size self)
           (list_sort (λ l, getattr_priority l 0) appended)).

(** The objects [add_layer] accepts. *)
Definition drawable (layer : object) : bool :=
  hasattr layer "draw" && hasattr layer "priority".

(** A sequence of [add_layer] calls on one renderer.  A call that raises
    has not touched the layer list, and the next call finds it as the
    last successful call left it. *)
Fixpoint add_layers (self : t) (ls : list object) : t :=
  match ls with
  | [] => self
  | layer :: ls' =>
      match add_layer self layer with
      | Ok self' => add_layers self' ls'
      | Raise _ => add_layers self ls'
      end
  end.

(** The sort key of [add_layer]. *)
Definition key (layer : object) : Z := getattr_priority layer 0.

End SNESRenderer.

(** ** The demo's update step ([update_game_state])

    The closure reads [TILE_SIZE], [MOVE_SPEED], [TILE_WALL], [tilemap] and
    [renderer] from the enclosing block and updates [player_sprite]; the
    pressed keys are the four it asks for. *)

Record Keys : Type := mkKeys {
  K_LEFT : bool;
  K_RIGHT : bool;
  K_UP : bool;
  K_DOWN : bool
}.

Module Game.

Record t : Type := mk {
  TILE_SIZE : Z;
  MOVE_SPEED : Z;
  TILE_WALL : Z;
  tilemap : TileMap.t;
  renderer : SNESRenderer.t
}.

(** The four sampled corners of a rectangle, in the order of the source. *)
Definition corners (r : Rect.t) : list (Z * Z) :=
  [ (Rect.left r, Rect.top r);
    (Rect.right r - 1, Rect.top r);
    (Rect.left r, Rect.bottom r - 1);
    (Rect.right r - 1, Rect.bottom r - 1) ].

(** Lines 275-282: the displacement the keys ask for. *)
Definition move (g : t) (keys : Keys) (s : Sprite.t) : Sprite.t :=
  let s := if K_LEFT keys then Sprite.set_x s (Sprite.x s - MOVE_SPEED g) else s in
  let s := if K_RIGHT keys then Sprite.set_x s (Sprite.x s + MOVE_SPEED g) else s in
  let s := if K_UP keys then Sprite.set_y s (Sprite.y s - MOVE_SPEED g) else s in
  let s := if K_DOWN keys then Sprite.set_y s (Sprite.y s + MOVE_SPEED g) else s in
  s.

(** Lines 296-309: the loop over [corners_to_check], left at the first
    corner that collides. *)
Fixpoint collided (g : t) (corners_to_check : list (Z * Z)) : result bool :=
  match corners_to_check with
  | [] => Ok false
  | (px, py) :: rest =>
      tile_x ← Py.floordiv px (TILE_SIZE g);
      tile_y ← Py.floordiv py (TILE_SIZE g);
      if bool_decide (0 <= tile_x < TileMap.width (tilemap g))
         && bool_decide (0 <= tile_y < TileMap.height (tilemap g))
      then
        tile_type ← TileMap.get_tile_index (tilemap g) tile_x tile_y;
        if bool_decide (tile_type = TILE_WALL g) then Ok true
        else collided g rest
      else Ok true
  end.

(** Lines 323-326 and 334-337: the loops of the two axis tests. *)
Fixpoint collided_axis (g : t) (corners_c : list (Z * Z)) : result bool :=
  match corners_c with
  | [] => Ok false
  | (px_c, py_c) :: rest =>
      tx ← Py.floordiv px_c (TILE_SIZE g);
      ty ← Py.floordiv py_c (TILE_SIZE g);
      if negb (bool_decide (0 <= tx < TileMap.width (tilemap g))
               && bool_decide (0 <= ty < TileMap.height (tilemap g)))
      then Ok true
      else
        tile ← TileMap.get_tile_index (tilemap g) tx ty;
        if bool_decide (tile = TILE_WALL g) then Ok true
        else collided_axis g rest
  end.

(** Lines 311-338: the response to a collision.  Both coordinates are
    put back first; the two tests that follow read the sprite after that. *)
Definition respond (g : t) (prev_x prev_y : Z) (s : Sprite.t)
  : result Sprite.t :=
  let s := Sprite.set_x s prev_x in
  let s := Sprite.set_y s prev_y in
  let player_rect_x_moved :=
    Rect.mk (Sprite.x s) prev_y (Sprite.width s) (Sprite.height s) in
  collided_x ← collided_axis g (corners player_rect_x_moved);
  let s := if collided_x : bool then Sprite.set_x s prev_x else s in
  let player_rect_y_moved :=
    Rect.mk prev_x (Sprite.y s) (Sprite.width s) (Sprite.height s) in
  collided_y ← collided_axis g (corners player_rect_y_moved);
  let s := if collided_y : bool then Sprite.set_y s prev_y else s in
  Ok s.

(** Lines 273-338: move, test the four corners, respond. *)
Definition resolve (g : t) (keys : Keys) (player_sprite : Sprite.t)
  : result Sprite.t :=
  let prev_x := Sprite.x player_sprite in
  let prev_y := Sprite.y player_sprite in
  let s := move g keys player_sprite in
  let player_rect := Sprite.get_rect s in
  hit ← collided g (corners player_rect);
  if hit : bool then respond g prev_x prev_y s else Ok s.

(** Lines 341-345: screen boundary clamping. *)
Definition clamp (g : t) (s : Sprite.t) : Sprite.t :=
  let '(logical_width, logical_height) :=
    SNESRenderer.logical_size (renderer g) in
  let s := Sprite.set_x s
    (Py.max 0 (Py.min (Sprite.x s) (logical_width - Sprite.width s))) in
  let s := Sprite.set_y s
    (Py.max 0 (Py.min (Sprite.y s) (logical_height - Sprite.height s))) in
  s.

(** [update_game_state]: one tick of the player's sprite. *)
Definition update_game_state (g : t) (keys : Keys) (player_sprite : Sprite.t)
  : result Sprite.t :=
  s ← resolve g keys player_sprite;
  Ok (clamp g s).

(** A corner hits when its tile is off the grid or is a wall. *)
Definition corner_hits (g : t) (p : Z * Z) : Prop :=
  let tx := p.1 `div` TILE_SIZE g in
  let ty := p.2 `div` TILE_SIZE g in
  ¬ (0 <= tx < TileMap.width (tilemap g) ∧ 0 <= ty < TileMap.height (tilemap g))
  ∨ TileMap.get_tile_index (tilemap g) tx ty = Ok (TILE_WALL g).

(** The bounding box of a sprite at [(x, y)] is clear when none of its
    four corners hits. *)
Definition clear_at (g : t) (s : Sprite.t) (x y : Z) : Prop :=
  Forall (λ p, ¬ corner_hits g p)
         (corners (Rect.mk x y (Sprite.width s) (Sprite.height s))).

Definition clear (g : t) (s : Sprite.t) : Prop :=
  clear_at g s (Sprite.x s) (Sprite.y s).

(** The setting the update step runs in: a positive tile size, a
    rectangular map, and (line 265) a logical screen that is the map in
    pixels. *)
Definition as_set_up (g : t) : Prop :=
  0 < TILE_SIZE g
  ∧ TileMap.rectangular (tilemap g)
  ∧ SNESRenderer.logical_size (renderer g)
    = (TileMap.width (tilemap g) * TILE_SIZE g,
       TileMap.height (tilemap g) * TILE_SIZE g).

(** Successive ticks, one set of pressed keys per tick. *)
Fixpoint ticks (g : t) (pressed : list Keys) (s : Sprite.t) : result Sprite.t :=
  match pressed with
  | [] => Ok s
  | keys :: rest => s' ← update_game_state g keys s; ticks g rest s'
  end.

End Game.

(** ** The block under [__main__]: the demo the update step runs in *)

Module Demo.

Definition TILE_SIZE : Z := 16.
Definition PLAYER_SIZE : Z := TILE_SIZE - 8.
Definition MOVE_SPEED : Z := 2.
Definition TILE_FLOOR : Z := 0.
Definition TILE_WALL : Z := 1.

Definition GREEN : RGBA := (0, 180, 0, 255).
Definition BLUE : RGBA := (0, 0, 200, 255).
Definition RED : RGBA := (200, 0, 0, 255).

Definition tilesheet_surface : result Surface.t :=
  sheet ← Surface.create (TILE_SIZE * 2, TILE_SIZE);
  floor_tile_img ← Surface.create_opaque (TILE_SIZE, TILE_SIZE);
  let floor_tile_img := Surface.fill floor_tile_img GREEN in
  let sheet := Surface.blit sheet floor_tile_img (0, 0) in
  wall_tile_img ← Surface.create_opaque (TILE_SIZE, TILE_SIZE);
  let wall_tile_img := Surface.fill wall_tile_img BLUE in
  Ok (Surface.blit sheet wall_tile_img (TILE_SIZE * 1, 0)).

Definition tileset : result TileSet.t :=
  sheet ← tilesheet_surface;
  TileSet.init sheet TILE_SIZE.

Definition map_layout : list (list Z) :=
  [ [1; 1; 1; 1; 1; 1; 1; 1; 1; 1; 1; 1; 1; 1; 1; 1];
    [1; 0; 0; 0; 0; 0; 0; 0; 0; 0; 0; 0; 0; 0; 0; 1];
    [1; 0; 1; 1; 0; 1; 0; 1; 1; 0; 1; 0; 1; 1; 0; 1];
    [1; 0; 0; 0; 0; 1; 0; 0; 0; 0; 1; 0; 0; 0; 0; 1];
    [1; 0; 1; 0; 0; 1; 1; 1; 1; 0; 1; 0; 0; 1; 0; 1];
    [1; 0; 0; 0; 0; 0; 0; 0; 0; 0; 0; 0; 0; 0; 0; 1];
    [1; 0; 1; 1; 1; 0; 1; 1; 1; 0; 1; 1; 1; 0; 0; 1];
    [1; 0; 0; 0; 0; 0; 1; 0; 0; 0; 0; 0; 0; 0; 0; 1];
    [1; 0; 1; 0; 0; 1; 1; 0; 1; 1; 0; 1; 0; 1; 0; 1];
    [1; 0; 1; 0; 0; 0; 0; 0; 1; 0; 0; 1; 0; 0; 0; 1];
    [1; 0; 1; 1; 1; 1; 0; 1; 1; 0; 1; 1; 0; 1; 1; 1];
    [1; 0; 0; 0; 0; 0; 0; 0; 0; 0; 0; 0; 0; 0; 0; 1];
    [1; 0; 0; 0; 0; 0; 0; 0; 0; 0; 0; 0; 0; 0; 0; 1];
    [1; 1; 1; 1; 1; 1; 1; 1; 1; 1; 1; 1; 1; 1; 1; 1] ].

(** Lines 245-267, for any tile size, wall index, speed and layout: the
    map takes its size from the layout, the layout replaces the rows
    [__init__] made, and the renderer's logical screen is the map in
    pixels. *)
Definition setup (tile_size move_speed tile_wall : Z)
    (layout : list (list Z)) (tileset : TileSet.t) (player : Sprite.t)
  : result Game.t :=
  let map_height := Py.len layout in
  first ← Py.getitem layout 0;
  let map_width := Py.len first in
  let tilemap := TileMap.init map_width map_height tileset 0 in
  let tilemap :=
    TileMap.mk (TileMap.width tilemap) (TileMap.height tilemap) layout
               (TileMap.priority tilemap) (TileMap.tileset tilemap) in
  let renderer :=
    SNESRenderer.init 3 (map_width * tile_size) (map_height * tile_size) in
  renderer ← SNESRenderer.add_layer renderer (OTileMap tilemap);
  renderer ← SNESRenderer.add_layer renderer (OSprite player);
  Ok (Game.mk tile_size move_speed tile_wall tilemap renderer).

Definition player_sprite : result Sprite.t :=
  player_surface ← Surface.create_opaque (PLAYER_SIZE, PLAYER_SIZE);
  let player_surface := Surface.fill player_surface RED in
  let player_start_x := TILE_SIZE * 1 + (TILE_SIZE - PLAYER_SIZE) `div` 2 in
  let player_start_y := TILE_SIZE * 1 + (TILE_SIZE - PLAYER_SIZE) `div` 2 in
  Ok (Sprite.init player_surface player_start_x player_start_y 1).

Definition game : result Game.t :=
  ts ← tileset;
  player ← player_sprite;
  setup TILE_SIZE MOVE_SPEED TILE_WALL map_layout ts player.

(** Neither raises: the game and the player as values. *)
Definition g : Game.t := the game eq_refl.
Definition player : Sprite.t := the player_sprite eq_refl.

Definition LEFT : Keys := mkKeys true false false false.
Definition LEFT_DOWN : Keys := mkKeys true false false true.
Definition NONE : Keys := mkKeys false false false false.

End Demo.

(** ** Sample layers

    A one-pixel sprite of a given priority, and an object that has a
    priority but no [draw] method. *)

Definition dot (priority : Z) : object :=
  OSprite (Sprite.init (Surface.mk 1 1 [[(200, 0, 0, 255)]]) 0 0 priority).

Definition no_draw (priority : Z) : object :=
  OOther {[ "priority"%string := priority ]} ∅.

(** ** The resolver as the specification words it (section 4.5)

    Steps 1 to 4: sample the fully proposed position; when a corner hits,
    test the proposed X with the previous Y and revert X if it hits, then
    test the proposed Y with the X that was kept and revert Y if it hits. *)

Module SpecResolver.

Definition hits (g : Game.t) (s : Sprite.t) (x y : Z) : result bool :=
  Game.collided_axis g
    (Game.corners (Rect.mk x y (Sprite.width s) (Sprite.height s))).

Definition resolve (g : Game.t) (keys : Keys) (player_sprite : Sprite.t)
  : result Sprite.t :=
  let prev_x := Sprite.x player_sprite in
  let prev_y := Sprite.y player_sprite in
  let proposed := Game.move g keys player_sprite in
  let new_x := Sprite.x proposed in
  let new_y := Sprite.y proposed in
  hit ← hits g proposed new_x new_y;
  if hit : bool then
    hit_x ← hits g proposed new_x prev_y;
    let x := if hit_x : bool then prev_x else new_x in
    hit_y ← hits g proposed x new_y;
    let y := if hit_y : bool then prev_y else new_y in
    Ok (Sprite.set_y (Sprite.set_x proposed x) y)
  else Ok proposed.

Definition update (g : Game.t) (keys : Keys) (player_sprite : Sprite.t)
  : result Sprite.t :=
  s ← resolve g keys player_sprite;
  Ok (Game.clamp g s).

End SpecResolver.

(** ** The earlier snapshots of the engine ([1.py] and [2.py])

    They define the same classes without the guards of [5.8.testhdr.py]. *)

Module Snapshot1.

(** [1.py], [TileSet.__init__]: both loops step by [tile_size] up to the
    size of the surface. *)
Definition TileSet_init (surface : Surface.t) (tile_size : Z)
  : result (list Surface.t) :=
  let '(w, h) := Surface.get_size surface in
  tys ← Py.range3 0 h tile_size;
  Py.for_each tys (λ ty tiles,
    txs ← Py.range3 0 w tile_size;
    Py.for_each txs (λ tx tiles,
      tile ← Surface.subsurface surface (tx, ty, tile_size, tile_size);
      Ok (tiles ++ [Surface.convert_alpha tile])) tiles) [].

(** [1.py], [TileMap.set_tile], on the rows of the map *)
Definition set_tile (map : list (list Z)) (x y index : Z)
  : result (list (list Z)) :=
  row ← Py.getitem map y;
  row' ← Py.setitem row x index;
  Py.setitem map y row'.

(** [1.py], [SNESRenderer.add_layer], on the layer list *)
Definition add_layer (layers : list object) (layer : object) : list object :=
  list_sort (λ l, getattr_priority l 0) (layers ++ [layer]).

End Snapshot1.

Module Snapshot2.

(** [2.py], [TileSet.get]: the subscript is used in both branches. *)
Definition TileSet_get (tiles : list Surface.t) (index : Z)
  : result Surface.t :=
  if bool_decide (0 <= index < Py.len tiles) then Py.getitem tiles index
  else Py.getitem tiles index.

End Snapshot2.

(** ** Drawing and the main loop, as the calls that reach pygame

    A frame is recorded as the calls made on the window and the clock, in
    order.  The picture handed to [blit] is a surface as it is or one put
    through [pygame.transform.scale], which refuses a negative size. *)

Inductive picture : Type :=
  | Plain (s : Surface.t)
  | Scaled (s : Surface.t) (size : Z * Z).

Inductive call : Type :=
  | Fill (color : Z * Z * Z)
  | Blit (p : picture) (pos : Z * Z)
  | Flip
  | Tick (fps : Z)
  | PygameQuit.

Inductive event : Type :=
  | QUIT
  | KEYDOWN (key : Z)
  | OtherEvent.

Definition K_ESCAPE : Z := 27.
Definition BLACK : Z * Z * Z := (0, 0, 0).

Module Draw.

(** [pygame.transform.scale(s, size)] *)
Definition transform_scale (s : Surface.t) (size : Z * Z) : result picture :=
  if bool_decide (0 <= size.1 ∧ 0 <= size.2) then Ok (Scaled s size)
  else Raise ValueError.

(** [enumerate(l)] *)
Definition enumerate {A} (l : list A) : list (Z * A) :=
  imap (λ i a, (Z.of_nat i, a)) l.

(** The picture both [draw] methods blit: scaled unless the scale is 1. *)
Definition at_scale (s : Surface.t) (scale : Z) (size : Z * Z) : result picture :=
  if bool_decide (scale ≠ 1) then transform_scale s size else Ok (Plain s).

(** [TileMap.draw] *)
Definition TileMap_draw (self : TileMap.t) (scale : Z) : result (list call) :=
  let tile_render_size := TileSet.tile_size_px (TileMap.tileset self) * scale in
  Py.for_each (enumerate (TileMap.map_data self)) (λ '(y, row) calls,
    Py.for_each (enumerate row) (λ '(x, index) calls,
      tile_surface ← TileSet.get (TileMap.tileset self) index;
      scaled_tile_surface ←
        at_scale tile_surface scale (tile_render_size, tile_render_size);
      Ok (calls ++ [Blit scaled_tile_surface
                      (x * tile_render_size, y * tile_render_size)]))
      calls) [].

(** [Sprite.draw]; [int] is the identity on the integers it is given. *)
Definition Sprite_draw (self : Sprite.t) (scale : Z) : result (list call) :=
  let scaled_width := Sprite.width self * scale in
  let scaled_height := Sprite.height self * scale in
  s ← at_scale (Sprite.surface self) scale (scaled_width, scaled_height);
  Ok [Blit s (Sprite.x self * scale, Sprite.y self * scale)].

(** [layer.draw(window, scale=scale)]; what the [draw] of an object that
    is neither a tile map nor a sprite does is given by [foreign]. *)
Definition draw_layer
    (foreign : gmap string Z → gset string → Z → result (list call))
    (layer : object) (scale : Z) : result (list call) :=
  match layer with
  | OTileMap tm => TileMap_draw tm scale
  | OSprite s => Sprite_draw s scale
  | OOther fields methods => foreign fields methods scale
  end.

End Draw.

Module Loop.

Section run.

(** What the callback reads in a frame besides the renderer (the pressed
    keys, for the demo), and the [draw] of foreign objects. *)
Context {I : Type}.
Variable foreign : gmap string Z → gset string → Z → result (list call).

(** The [for evt in pygame.event.get()] loop of one frame. *)
Definition poll (events : list event) (running : bool) : bool :=
  foldl (λ running evt,
           let running := match evt with QUIT => false | _ => running end in
           match evt with
           | KEYDOWN key => if bool_decide (key = K_ESCAPE) then false else running
           | _ => running
           end) running events.

(** The body of the [while] loop after the events: the callback, the
    clear, the layers in list order, the flip and the tick.  The callback
    changes objects the layer list refers to, so it is given the renderer
    and returns it. *)
Definition frame (self : SNESRenderer.t)
    (update_cb : option (I → SNESRenderer.t → result SNESRenderer.t))
    (fps : Z) (input : I) : result (SNESRenderer.t * list call) :=
  self ← match update_cb with
         | Some cb => cb input self
         | None => Ok self
         end;
  drawn ← Py.for_each (SNESRenderer.layers self) (λ layer calls,
             c ← Draw.draw_layer foreign layer (SNESRenderer.scale self);
             Ok (calls ++ c)) [Fill BLACK];
  Ok (self, drawn ++ [Flip; Tick fps]).

(** [SNESRenderer.run] over the frames for which input is given: each
    frame is the events pygame hands out in it and what the callback reads.
    The result is the renderer, the calls made, and whether the loop is
    still running when the input ends. *)
Fixpoint run (self : SNESRenderer.t)
    (update_cb : option (I → SNESRenderer.t → result SNESRenderer.t))
    (fps : Z) (frames : list (list event * I))
  : result (SNESRenderer.t * list call * bool) :=
  match frames with
  | [] => Ok (self, [], true)
  | (events, input) :: rest =>
      let running := poll events true in
      '(self, calls) ← frame self update_cb fps input;
      if running then
        '(self, later, still) ← run self update_cb fps rest;
        Ok (self, calls ++ later, still)
      else Ok (self, calls ++ [PygameQuit], false)
  end.

(** Frames played one after the other, with no regard to events. *)
Fixpoint play (self : SNESRenderer.t)
    (update_cb : option (I → SNESRenderer.t → result SNESRenderer.t))
    (fps : Z) (inputs : list I) : result (SNESRenderer.t * list call) :=
  match inputs with
  | [] => Ok (self, [])
  | input :: rest =>
      '(self, calls) ← frame self update_cb fps input;
      '(self, later) ← play self update_cb fps rest;
      Ok (self, calls ++ later)
  end.

End run.

(** An event that ends the loop: closing the window or pressing Escape. *)
Definition quits (evt : event) : bool :=
  match evt with
  | QUIT => true
  | KEYDOWN key => bool_decide (key = K_ESCAPE)
  | OtherEvent => false
  end.

End Loop.

Module DemoLoop.

(** [update_game_state] as the callback the demo hands to [run].  The
    closure updates [player_sprite], the object the second layer refers
    to, so in the scene the demo sets up (the map, then the player) the
    second layer is the updated sprite.  The source has no other scene;
    a renderer with other layers is returned as it is. *)
Definition update_cb (g : Game.t) (keys : Keys) (r : SNESRenderer.t)
  : result SNESRenderer.t :=
  match SNESRenderer.layers r with
  | [OTileMap tm; OSprite player_sprite] =>
      s ← Game.update_game_state g keys player_sprite;
      Ok (SNESRenderer.mk (SNESRenderer.scale r) (SNESRenderer.logical_size r)
            [OTileMap tm; OSprite s])
  | _ => Ok r
  end.

(** The demo has no layer besides the map and the player. *)
Definition no_foreign (fields : gmap string Z) (methods : gset string)
    (scale : Z) : result (list call) :=
  Ok [].

End DemoLoop.

(** * Properties *)

(** ** Results and Python list operations *)

Lemma bind_Ok {A B} (a : A) (k : A → result B) : (Ok a ≫= k) = k a.
Proof. reflexivity. Qed.

Lemma floordiv_Ok (a b : Z) : b ≠ 0 → Py.floordiv a b = Ok (a `div` b).
Proof. intros Hb. unfold Py.floordiv. by rewrite bool_decide_eq_false_2. Qed.

Lemma getitem_nonneg {A} (l : list A) (i : Z) :
  0 <= i →
  Py.getitem l i =
    match l !! Z.to_nat i with Some a => Ok a | None => Raise IndexError end.
Proof.
  intros Hi. unfold Py.getitem, Py.norm_index.
  rewrite (bool_decide_eq_false_2 (i < 0)) by lia.
  by rewrite bool_decide_eq_true_2.
Qed.

Lemma getitem_lookup {A} (l : list A) (i : Z) (a : A) :
  0 <= i → l !! Z.to_nat i = Some a → Py.getitem l i = Ok a.
Proof. intros Hi Hl. by rewrite getitem_nonneg, Hl. Qed.

Lemma getitem_in_range {A} (l : list A) (i : Z) :
  0 <= i < Py.len l → ∃ a, l !! Z.to_nat i = Some a ∧ Py.getitem l i = Ok a.
Proof.
  intros Hi. unfold Py.len in Hi.
  destruct (lookup_lt_is_Some_2 l (Z.to_nat i)) as [a Ha]; [lia|].
  exists a. split; [done|]. apply getitem_lookup; [lia | done].
Qed.

Lemma setitem_in_range {A} (l : list A) (i : Z) (v : A) :
  0 <= i < Py.len l → Py.setitem l i v = Ok (<[Z.to_nat i := v]> l).
Proof.
  intros Hi. unfold Py.setitem, Py.norm_index.
  rewrite (bool_decide_eq_false_2 (i < 0)) by lia.
  by rewrite bool_decide_eq_true_2.
Qed.

Lemma range_length (n : Z) : length (Py.range n) = Z.to_nat n.
Proof. unfold Py.range. by rewrite length_fmap, length_seq. Qed.

Lemma range_lookup (n : Z) (i : nat) :
  (i < Z.to_nat n)%nat → Py.range n !! i = Some (Z.of_nat i).
Proof.
  intros Hi. unfold Py.range.
  rewrite list_lookup_fmap, lookup_seq_lt by done. reflexivity.
Qed.

(** ** TileMap: the grid of tile indices *)

Section tile_map.

Implicit Types (tm : TileMap.t) (x y k : Z).

Lemma in_bounds_guard tm x y :
  0 <= x < TileMap.width tm → 0 <= y < TileMap.height tm →
  bool_decide (0 <= y < TileMap.height tm)
    && bool_decide (0 <= x < TileMap.width tm) = true.
Proof. intros. by rewrite !bool_decide_eq_true_2. Qed.

Lemma out_of_bounds_guard tm x y :
  ¬ (0 <= x < TileMap.width tm ∧ 0 <= y < TileMap.height tm) →
  bool_decide (0 <= y < TileMap.height tm)
    && bool_decide (0 <= x < TileMap.width tm) = false.
Proof.
  intros Hout. apply andb_false_iff.
  destruct (decide (0 <= y < TileMap.height tm)) as [Hy|Hy].
  - right. apply bool_decide_eq_false_2. tauto.
  - left. by apply bool_decide_eq_false_2.
Qed.

(** A cell read through the rows of a rectangular map. *)
Lemma get_tile_index_lookup tm x y row v :
  0 <= x < TileMap.width tm → 0 <= y < TileMap.height tm →
  TileMap.map_data tm !! Z.to_nat y = Some row →
  row !! Z.to_nat x = Some v →
  TileMap.get_tile_index tm x y = Ok v.
Proof.
  intros Hx Hy Hrow Hv. unfold TileMap.get_tile_index.
  rewrite in_bounds_guard by done.
  rewrite (getitem_lookup _ _ row) by (lia || done).
  rewrite bind_Ok. apply getitem_lookup; [lia | done].
Qed.

Lemma rectangular_row tm y :
  TileMap.rectangular tm → 0 <= y < TileMap.height tm →
  ∃ row, TileMap.map_data tm !! Z.to_nat y = Some row
         ∧ Py.len row = TileMap.width tm.
Proof.
  intros [Hlen Hrows] Hy.
  destruct (getitem_in_range (TileMap.map_data tm) y) as (row & Hrow & _);
    [lia|].
  exists row. split; [done|].
  by apply (Forall_lookup_1 _ _ _ _ Hrows Hrow).
Qed.

(** In a rectangular map every in-bounds read returns a stored index. *)
Lemma get_tile_index_total tm x y :
  TileMap.rectangular tm →
  0 <= x < TileMap.width tm → 0 <= y < TileMap.height tm →
  ∃ v, TileMap.get_tile_index tm x y = Ok v.
Proof.
  intros Hrect Hx Hy.
  destruct (rectangular_row tm y Hrect Hy) as (row & Hrow & Hw).
  destruct (getitem_in_range row x) as (v & Hv & _); [lia|].
  exists v. by apply (get_tile_index_lookup tm x y row v).
Qed.

Lemma get_tile_index_out tm x y :
  ¬ (0 <= x < TileMap.width tm ∧ 0 <= y < TileMap.height tm) →
  TileMap.get_tile_index tm x y = Ok (-1).
Proof.
  intros Hout. unfold TileMap.get_tile_index.
  by rewrite out_of_bounds_guard.
Qed.

Lemma init_rectangular w h ts p :
  0 <= w → 0 <= h → TileMap.rectangular (TileMap.init w h ts p).
Proof.
  intros Hw Hh. split; simpl.
  - unfold Py.len. rewrite length_fmap, range_length. lia.
  - apply Forall_fmap, Forall_forall. intros z _. simpl.
    unfold Py.len. rewrite length_replicate. lia.
Qed.

(** What an in-bounds [set_tile] returns, row by row. *)
Lemma set_tile_in_bounds tm x y k row :
  0 <= x < TileMap.width tm → 0 <= y < TileMap.height tm →
  TileMap.map_data tm !! Z.to_nat y = Some row →
  Py.len row = TileMap.width tm →
  TileMap.set_tile tm x y k =
    Ok (TileMap.mk (TileMap.width tm) (TileMap.height tm)
          (<[Z.to_nat y := <[Z.to_nat x := k]> row]> (TileMap.map_data tm))
          (TileMap.priority tm) (TileMap.tileset tm), []).
Proof.
  intros Hx Hy Hrow Hw. unfold TileMap.set_tile.
  rewrite in_bounds_guard by done.
  rewrite (getitem_lookup _ _ row) by (lia || done). rewrite bind_Ok.
  rewrite setitem_in_range by lia. rewrite bind_Ok.
  rewrite setitem_in_range; [done|].
  apply lookup_lt_Some in Hrow. unfold Py.len. lia.
Qed.

Lemma set_tile_rectangular tm x y k tm' out :
  TileMap.rectangular tm →
  TileMap.set_tile tm x y k = Ok (tm', out) →
  TileMap.rectangular tm'.
Proof.
  intros Hrect Hset.
  destruct (decide (0 <= x < TileMap.width tm ∧ 0 <= y < TileMap.height tm))
    as [[Hx Hy]|Hout].
  - destruct (rectangular_row tm y Hrect Hy) as (row & Hrow & Hw).
    rewrite (set_tile_in_bounds tm x y k row) in Hset by done.
    injection Hset as <- <-. destruct Hrect as [Hlen Hrows].
    split; simpl.
    + unfold Py.len in *. by rewrite length_insert.
    + apply Forall_insert; [done|].
      unfold Py.len in *. by rewrite length_insert.
  - unfold TileMap.set_tile in Hset.
    rewrite out_of_bounds_guard in Hset by done.
    by injection Hset as <- <-.
Qed.

End tile_map.

Section tile_map_spec.

Implicit Types (tm : TileMap.t) (x y k : Z).

(** C3. [set_tile] at a coordinate outside the grid ([x < 0],
    [x >= width], [y < 0] or [y >= height]) returns normally, prints one
    out-of-bounds warning naming the coordinate, and hands back the map
    it was given: no cell is written, at that coordinate or any other. *)
Theorem set_tile_out_of_bounds tm x y k :
  x < 0 ∨ x >= TileMap.width tm ∨ y < 0 ∨ y >= TileMap.height tm →
  TileMap.set_tile tm x y k = Ok (tm, [TileMap.warning x y]).
Proof.
  intros Hout. unfold TileMap.set_tile.
  rewrite out_of_bounds_guard; [done | lia].
Qed.

Lemma set_tile_out_of_bounds_witness :
  TileMap.set_tile (TileMap.init 3 2 (TileSet.mk [] 8) 0) (-1) 1 7
    = Ok (TileMap.init 3 2 (TileSet.mk [] 8) 0,
          ["Warning: Tile coordinates (-1, 1) are out of map bounds."%string]).
Proof.
  apply (set_tile_out_of_bounds (TileMap.init 3 2 (TileSet.mk [] 8) 0) (-1) 1 7).
  left. lia.
Defined.

(** C5. In a rectangular map, [set_tile] at an in-bounds [(x, y)]
    succeeds without a warning, [get_tile_index] at [(x, y)] then returns
    the index written, and every other coordinate reads as before. *)
Theorem set_tile_get_tile_index_roundtrip tm x y k :
  TileMap.rectangular tm →
  0 <= x < TileMap.width tm → 0 <= y < TileMap.height tm →
  ∃ tm', TileMap.set_tile tm x y k = Ok (tm', [])
    ∧ TileMap.get_tile_index tm' x y = Ok k
    ∧ ∀ x' y', (x', y') ≠ (x, y) →
        TileMap.get_tile_index tm' x' y' = TileMap.get_tile_index tm x' y'.
Proof.
  intros Hrect Hx Hy.
  destruct (rectangular_row tm y Hrect Hy) as (row & Hrow & Hw).
  pose proof (lookup_lt_Some _ _ _ Hrow) as Hylt.
  eexists. split; [by apply (set_tile_in_bounds tm x y k row)|].
  split.
  - apply (get_tile_index_lookup _ x y (<[Z.to_nat x := k]> row) k);
      simpl; try done.
    + by apply list_lookup_insert_eq.
    + apply list_lookup_insert_eq. unfold Py.len in Hw. lia.
  - intros x' y' Hne. unfold TileMap.get_tile_index; simpl.
    destruct (bool_decide (0 <= y' < TileMap.height tm)) eqn:Hy'; [|done].
    destruct (bool_decide (0 <= x' < TileMap.width tm)) eqn:Hx'; [|done].
    apply bool_decide_eq_true_1 in Hy', Hx'. simpl.
    rewrite !(getitem_nonneg _ y') by lia.
    destruct (decide (y' = y)) as [->|Hyy].
    + rewrite list_lookup_insert_eq by done. rewrite Hrow, !bind_Ok.
      rewrite !(getitem_nonneg _ x') by lia.
      rewrite list_lookup_insert_ne; [done|].
      intros Heq. apply Hne. f_equal. lia.
    + rewrite list_lookup_insert_ne; [done | lia].
Qed.

Lemma set_tile_get_tile_index_roundtrip_witness :
  ∃ tm', TileMap.set_tile (TileMap.init 3 2 (TileSet.mk [] 8) 0) 1 1 7
           = Ok (tm', [])
    ∧ TileMap.get_tile_index tm' 1 1 = Ok 7
    ∧ ∀ x' y', (x', y') ≠ (1, 1) →
        TileMap.get_tile_index tm' x' y'
        = TileMap.get_tile_index (TileMap.init 3 2 (TileSet.mk [] 8) 0) x' y'.
Proof.
  apply (set_tile_get_tile_index_roundtrip
           (TileMap.init 3 2 (TileSet.mk [] 8) 0) 1 1 7).
  - split; [reflexivity | repeat constructor].
  - simpl; lia.
  - simpl; lia.
Defined.

(** C9. A map fresh from [__init__] reads 0 at every in-bounds
    coordinate (which exist only when both sizes are at least 1). *)
Theorem init_get_tile_index_zero (w h : Z) (ts : TileSet.t) (p x y : Z) :
  0 <= x < w → 0 <= y < h →
  TileMap.get_tile_index (TileMap.init w h ts p) x y = Ok 0.
Proof.
  intros Hx Hy.
  apply (get_tile_index_lookup _ x y (replicate (Z.to_nat w) 0) 0);
    simpl; try done.
  - rewrite list_lookup_fmap, range_lookup by lia. reflexivity.
  - apply lookup_replicate_2. lia.
Qed.

Lemma init_get_tile_index_zero_witness :
  TileMap.get_tile_index (TileMap.init 16 14 (TileSet.mk [] 16) 0) 15 13 = Ok 0.
Proof.
  apply (init_get_tile_index_zero 16 14 (TileSet.mk [] 16) 0 15 13); lia.
Defined.

End tile_map_spec.

(** The first snapshot writes through the bare subscripts: a negative
    coordinate lands on a cell counted from the end, a large one raises. *)
Example snapshot1_set_tile_wraps :
  Snapshot1.set_tile [[0; 0]; [0; 0]] (-1) 0 7 = Ok [[0; 7]; [0; 0]].
Proof. reflexivity. Qed.

Example snapshot1_set_tile_raises :
  Snapshot1.set_tile [[0; 0]; [0; 0]] 2 0 7 = Raise IndexError.
Proof. reflexivity. Qed.

(** ** TileSet: slicing the sheet and looking tiles up *)

Section tile_set.

(** A loop that appends one computed element per step. *)
Lemma for_each_append {A B C} (l : list A) (f : A → result B) (g : B → C)
    (h : A → B) (acc : list C) :
  Forall (λ a, f a = Ok (h a)) l →
  Py.for_each l (λ a acc, b ← f a; Ok (acc ++ [g b])) acc
    = Ok (acc ++ ((g ∘ h) <$> l)).
Proof.
  intros Hl. revert acc.
  induction Hl as [|a l Ha _ IH]; intros acc; simpl.
  - by rewrite app_nil_r.
  - rewrite Ha, !bind_Ok, IH. by rewrite <-app_assoc.
Qed.

(** A loop whose every step appends a block. *)
Lemma for_each_blocks {A C} (l : list A) (body : A → list C → result (list C))
    (k : A → list C) (acc : list C) :
  Forall (λ a, ∀ acc, body a acc = Ok (acc ++ k a)) l →
  Py.for_each l body acc = Ok (acc ++ mjoin (k <$> l)).
Proof.
  intros Hl. revert acc.
  induction Hl as [|a l Ha _ IH]; intros acc; simpl.
  - by rewrite app_nil_r.
  - rewrite Ha, bind_Ok, IH. by rewrite <-app_assoc.
Qed.

Lemma range_elem (n z : Z) : z ∈ Py.range n → 0 <= z < n.
Proof.
  unfold Py.range. rewrite list_elem_of_fmap.
  intros (i & -> & Hi). apply elem_of_seq in Hi. lia.
Qed.

Lemma subsurface_inside (s : Surface.t) (x y rw rh : Z) :
  0 <= x → 0 <= y → 0 <= rw → 0 <= rh →
  x + rw <= Surface.get_width s → y + rh <= Surface.get_height s →
  Surface.subsurface s (x, y, rw, rh) = Ok (Surface.crop s x y rw rh).
Proof.
  intros. unfold Surface.subsurface, Surface.get_width, Surface.get_height in *.
  by rewrite bool_decide_eq_true_2.
Qed.

Variable surface : Surface.t.
Variable tile_size : Z.
Hypothesis tile_size_pos : 1 <= tile_size.

Local Abbreviation cols := (Surface.get_width surface `div` tile_size).
Local Abbreviation rows := (Surface.get_height surface `div` tile_size).

(** The tile cut at column [tx_idx] of row [ty_idx]. *)
Local Abbreviation cell := (λ ty_idx tx_idx : Z,
  Surface.crop surface (tx_idx * tile_size) (ty_idx * tile_size)
               tile_size tile_size).

Lemma cell_inside (ty_idx tx_idx : Z) :
  0 <= tx_idx < cols → 0 <= ty_idx < rows →
  Surface.subsurface surface
    (tx_idx * tile_size, ty_idx * tile_size, tile_size, tile_size)
  = Ok (cell ty_idx tx_idx).
Proof.
  intros Hx Hy. apply subsurface_inside; try lia.
  - pose proof (Z.mul_div_le (Surface.get_width surface) tile_size). nia.
  - pose proof (Z.mul_div_le (Surface.get_height surface) tile_size). nia.
Qed.

Lemma init_tiles :
  TileSet.init surface tile_size
  = Ok (TileSet.mk
          (mjoin ((λ ty_idx, cell ty_idx <$> Py.range cols) <$> Py.range rows))
          tile_size).
Proof.
  unfold TileSet.init, Surface.get_size.
  rewrite !floordiv_Ok by lia. rewrite !bind_Ok.
  fold (Surface.get_width surface) (Surface.get_height surface).
  rewrite (for_each_blocks _ _ (λ ty_idx, cell ty_idx <$> Py.range cols)).
  { reflexivity. }
  apply Forall_forall. intros ty_idx Hty%range_elem acc.
  apply (for_each_append _ _ Surface.convert_alpha (cell ty_idx)).
  apply Forall_forall. intros tx_idx Htx%range_elem.
  by apply cell_inside.
Qed.

End tile_set.

Section tile_set_spec.

Lemma sliced_length (surface : Surface.t) (ts cols rows : Z) :
  0 <= cols → 0 <= rows →
  Py.len (mjoin ((λ ty_idx,
            (λ tx_idx, Surface.crop surface (tx_idx * ts) (ty_idx * ts) ts ts)
              <$> Py.range cols) <$> Py.range rows))
  = cols * rows.
Proof.
  intros Hc Hr. unfold Py.len.
  rewrite length_join, <-list_fmap_compose.
  rewrite (sum_list_fmap_same (Z.to_nat cols)).
  - rewrite range_length. lia.
  - apply Forall_forall. intros ty_idx _. simpl.
    by rewrite length_fmap, range_length.
Qed.

Lemma sliced_lookup (surface : Surface.t) (ts cols rows i : Z) :
  0 <= cols → 0 <= rows → 0 <= i < cols * rows →
  mjoin ((λ ty_idx,
      (λ tx_idx, Surface.crop surface (tx_idx * ts) (ty_idx * ts) ts ts)
        <$> Py.range cols) <$> Py.range rows) !! Z.to_nat i
  = Some (Surface.crop surface ((i `mod` cols) * ts) ((i `div` cols) * ts)
                       ts ts).
Proof.
  intros Hc0 Hr0 Hi.
  assert (0 < cols) as Hc by nia.
  pose proof (Z.mod_pos_bound i cols Hc) as Hmod.
  pose proof (Z.div_mod i cols ltac:(lia)) as Hdm.
  assert (0 <= i `div` cols < rows) as Hdiv.
  { split; [apply Z.div_pos; lia|]. apply Z.div_lt_upper_bound; lia. }
  replace (Z.to_nat i)
    with (Z.to_nat (i `div` cols) * Z.to_nat cols + Z.to_nat (i `mod` cols))%nat
    by nia.
  apply (join_lookup_Some_same_length' (Z.to_nat cols)).
  - apply Forall_fmap, Forall_forall. intros ty_idx _. simpl.
    by rewrite length_fmap, range_length.
  - lia.
  - eexists. split.
    + rewrite list_lookup_fmap, range_lookup by lia. reflexivity.
    + rewrite list_lookup_fmap, range_lookup by lia. simpl.
      by rewrite !Z2Nat.id by lia.
Qed.

(** C8. For a tile size of at least 1, [TileSet.__init__] succeeds and
    keeps [(w // tile_size) * (h // tile_size)] tiles, [w] and [h] the
    size of the sheet; tile [i] is the [tile_size] square whose corner is
    at column [i mod cols] and row [i // cols] of the grid of whole
    cells, so the tiles run left to right, then top to bottom, and a
    partial trailing row or column gives no tile. *)
Theorem TileSet_init_row_major (surface : Surface.t) (tile_size : Z) :
  1 <= tile_size →
  ∃ tset,
    TileSet.init surface tile_size = Ok tset
    ∧ TileSet.tile_size_px tset = tile_size
    ∧ TileSet.len tset
      = (Surface.get_width surface `div` tile_size)
        * (Surface.get_height surface `div` tile_size)
    ∧ ∀ i, 0 <= i < TileSet.len tset →
        TileSet.get tset i
        = Ok (Surface.crop surface
                ((i `mod` (Surface.get_width surface `div` tile_size))
                 * tile_size)
                ((i `div` (Surface.get_width surface `div` tile_size))
                 * tile_size)
                tile_size tile_size).
Proof.
  intros Hts. rewrite init_tiles by done.
  eexists. split; [reflexivity|].
  set (cols := Surface.get_width surface `div` tile_size).
  set (rows := Surface.get_height surface `div` tile_size).
  assert (0 <= cols) as Hc.
  { apply Z.div_pos; [unfold Surface.get_width|]; lia. }
  assert (0 <= rows) as Hr.
  { apply Z.div_pos; [unfold Surface.get_height|]; lia. }
  unfold TileSet.len; simpl.
  rewrite sliced_length by done.
  split; [done|]. split; [done|].
  intros i Hi. unfold TileSet.get; simpl.
  pose proof (sliced_lookup surface tile_size cols rows i Hc Hr Hi) as Hlook.
  rewrite bool_decide_eq_false_2.
  2:{ intros Hnil. by rewrite Hnil in Hlook. }
  rewrite sliced_length by done.
  rewrite bool_decide_eq_true_2 by done.
  apply getitem_lookup; [lia | done].
Qed.

Lemma TileSet_init_row_major_witness :
  ∃ tset,
    TileSet.init (Surface.mk 20 9 (replicate 9 (replicate 20 (0, 0, 0, 255)))) 8
      = Ok tset
    ∧ TileSet.tile_size_px tset = 8
    ∧ TileSet.len tset = 2 * 1
    ∧ ∀ i, 0 <= i < TileSet.len tset →
        TileSet.get tset i
        = Ok (Surface.crop
                (Surface.mk 20 9 (replicate 9 (replicate 20 (0, 0, 0, 255))))
                ((i `mod` 2) * 8) ((i `div` 2) * 8) 8 8).
Proof.
  apply (TileSet_init_row_major
           (Surface.mk 20 9 (replicate 9 (replicate 20 (0, 0, 0, 255)))) 8).
  lia.
Defined.

End tile_set_spec.

Section tile_set_get.

Implicit Types (self : TileSet.t) (i : Z).

Lemma get_empty self i :
  TileSet.tiles self = [] → 0 <= TileSet.tile_size_px self →
  TileSet.get self i
  = Ok (Surface.mk (Z.to_nat (TileSet.tile_size_px self))
          (Z.to_nat (TileSet.tile_size_px self))
          (replicate (Z.to_nat (TileSet.tile_size_px self))
             (replicate (Z.to_nat (TileSet.tile_size_px self)) (0, 0, 0, 0)))).
Proof.
  intros Hnil Hts. unfold TileSet.get, Surface.create.
  rewrite bool_decide_eq_true_2 by done.
  by rewrite bool_decide_eq_true_2.
Qed.

Lemma get_first self :
  TileSet.tiles self ≠ [] →
  ∃ tile, TileSet.tiles self !! 0%nat = Some tile
          ∧ TileSet.get self 0 = Ok tile.
Proof.
  intros Hne. unfold TileSet.get.
  rewrite bool_decide_eq_false_2 by done.
  destruct (TileSet.tiles self) as [|tile tiles]; [done|].
  exists tile. split; [done|].
  rewrite bool_decide_eq_true_2; [done|].
  unfold Py.len; simpl. lia.
Qed.

Lemma get_outside self i :
  TileSet.tiles self ≠ [] → i < 0 ∨ i >= TileSet.len self →
  TileSet.get self i = Py.getitem (TileSet.tiles self) 0.
Proof.
  intros Hne Hout. unfold TileSet.get.
  rewrite bool_decide_eq_false_2 by done.
  rewrite bool_decide_eq_false_2; [done|].
  unfold TileSet.len in Hout. lia.
Qed.

(** C4. With a tile size that is not negative, [get] always returns a
    tile.  For an index below 0 or at least [len] it returns what
    [get(0)] returns.  When the set has no tile it returns, whatever the
    index, a square of [tile_size_px] pixels, all of them (0, 0, 0, 0). *)
Theorem TileSet_get_fallback self i :
  0 <= TileSet.tile_size_px self →
  (∃ tile, TileSet.get self i = Ok tile)
  ∧ (i < 0 ∨ i >= TileSet.len self → TileSet.get self i = TileSet.get self 0)
  ∧ (TileSet.len self = 0 →
     ∃ tile, TileSet.get self i = Ok tile
       ∧ Surface.get_size tile
         = (TileSet.tile_size_px self, TileSet.tile_size_px self)
       ∧ Surface.px tile
         = replicate (Z.to_nat (TileSet.tile_size_px self))
             (replicate (Z.to_nat (TileSet.tile_size_px self)) (0, 0, 0, 0))
       ∧ Surface.transparent tile).
Proof.
  intros Hts. split; [|split].
  - destruct (decide (TileSet.tiles self = [])) as [Hnil|Hne].
    { rewrite get_empty by done. eauto. }
    destruct (decide (0 <= i < TileSet.len self)) as [Hin|Hout].
    + unfold TileSet.get.
      rewrite bool_decide_eq_false_2 by done.
      rewrite bool_decide_eq_true_2 by done.
      destruct (getitem_in_range (TileSet.tiles self) i Hin) as (t & _ & Ht).
      eauto.
    + destruct (get_first self Hne) as (t & _ & Ht).
      exists t. rewrite get_outside by (done || lia).
      unfold TileSet.get in Ht.
      rewrite bool_decide_eq_false_2 in Ht by done.
      destruct (bool_decide (0 <= 0 < Py.len (TileSet.tiles self))); done.
  - intros Hout. unfold TileSet.get.
    destruct (bool_decide (TileSet.tiles self = [])) eqn:Hnil; [done|].
    apply bool_decide_eq_false_1 in Hnil.
    rewrite (bool_decide_eq_false_2 (0 <= i < _)).
    2:{ unfold TileSet.len in Hout. lia. }
    by destruct (bool_decide (0 <= 0 < Py.len (TileSet.tiles self))).
  - intros Hlen.
    assert (TileSet.tiles self = []) as Hnil.
    { unfold TileSet.len, Py.len in Hlen.
      destruct (TileSet.tiles self); [done | simpl in Hlen; lia]. }
    rewrite get_empty by done. eexists. split; [reflexivity|].
    simpl. split; [|split; [done|]].
    + unfold Surface.get_size; simpl. f_equal; lia.
    + unfold Surface.transparent; simpl.
      apply Forall_replicate, Forall_replicate. reflexivity.
Qed.

Lemma TileSet_get_fallback_witness :
  (∃ tile, TileSet.get (TileSet.mk [] 8) 5 = Ok tile)
  ∧ (5 < 0 ∨ 5 >= TileSet.len (TileSet.mk [] 8) →
     TileSet.get (TileSet.mk [] 8) 5 = TileSet.get (TileSet.mk [] 8) 0)
  ∧ (TileSet.len (TileSet.mk [] 8) = 0 →
     ∃ tile, TileSet.get (TileSet.mk [] 8) 5 = Ok tile
       ∧ Surface.get_size tile = (8, 8)
       ∧ Surface.px tile = replicate 8%nat (replicate 8%nat (0, 0, 0, 0))
       ∧ Surface.transparent tile).
Proof.
  apply (TileSet_get_fallback (TileSet.mk [] 8) 5). simpl. lia.
Defined.

End tile_set_get.

(** The earlier snapshots: [2.py] reads the bare subscript outside the
    range, so -1 is the last tile and a large index raises; the loops of
    [1.py] also visit a partial trailing column, where [subsurface] raises. *)
Example snapshot2_get_wraps (a b : Surface.t) :
  Snapshot2.TileSet_get [a; b] (-1) = Ok b.
Proof. reflexivity. Qed.

Example snapshot2_get_raises (a b : Surface.t) :
  Snapshot2.TileSet_get [a; b] 2 = Raise IndexError.
Proof. reflexivity. Qed.

Example snapshot1_init_partial_column :
  Snapshot1.TileSet_init
    (Surface.mk 10 8 (replicate 8 (replicate 10 (0, 0, 0, 255)))) 8
  = Raise ValueError.
Proof. reflexivity. Qed.

(** ** SNESRenderer: the order of the layer list *)

Section sorting.

Context {A : Type} (key : A → Z).

Local Abbreviation key_le := (λ a b : A, key a <= key b).

Lemma sort_insert_elem (a x : A) (l : list A) :
  x ∈ sort_insert key a l ↔ x = a ∨ x ∈ l.
Proof.
  induction l as [|b l IH]; simpl.
  - rewrite list_elem_of_singleton, elem_of_nil. tauto.
  - case_bool_decide; rewrite !elem_of_cons; [tauto|].
    rewrite IH. tauto.
Qed.

Lemma sort_insert_sorted (a : A) (l : list A) :
  StronglySorted key_le l → StronglySorted key_le (sort_insert key a l).
Proof.
  induction 1 as [|b l Hsorted IH Hb]; simpl.
  - repeat constructor.
  - case_bool_decide as Hab.
    + constructor; [by constructor|].
      constructor; [done|].
      eapply Forall_impl; [exact Hb|]. simpl. intros c Hc. lia.
    + constructor; [done|].
      apply Forall_forall. intros x [->|Hx]%sort_insert_elem.
      * lia.
      * by apply (proj1 (Forall_forall _ _) Hb).
Qed.

Lemma list_sort_sorted (l : list A) : StronglySorted key_le (list_sort key l).
Proof.
  induction l as [|a l IH]; simpl; [constructor|].
  by apply sort_insert_sorted.
Qed.

(** Insertion does not disturb the elements of any one key. *)
Lemma sort_insert_filter (p : Z) (a : A) (l : list A) :
  filter (λ x, key x = p) (sort_insert key a l)
  = filter (λ x, key x = p) (a :: l).
Proof.
  induction l as [|b l IH]; simpl; [done|].
  case_bool_decide as Hab; [done|].
  rewrite (filter_cons _ b), IH, !filter_cons.
  repeat case_decide; try done; lia.
Qed.

Lemma list_sort_filter (p : Z) (l : list A) :
  filter (λ x, key x = p) (list_sort key l) = filter (λ x, key x = p) l.
Proof.
  induction l as [|a l IH]; simpl; [done|].
  by rewrite sort_insert_filter, !filter_cons, IH.
Qed.

Lemma list_sort_perm (l : list A) : list_sort key l ≡ₚ l.
Proof.
  induction l as [|a l IH]; simpl; [done|].
  rewrite <-IH at 2. clear IH. generalize (list_sort key l). intros k.
  induction k as [|b k IH]; simpl; [done|].
  case_bool_decide; [done|]. rewrite IH. apply Permutation_swap.
Qed.

End sorting.

Section renderer.

Implicit Types (self : SNESRenderer.t) (layer : object) (ls : list object).

Local Abbreviation by_priority :=
  (λ a b : object, SNESRenderer.key a <= SNESRenderer.key b).

Lemma add_layer_accepts self layer :
  SNESRenderer.drawable layer = true →
  SNESRenderer.add_layer self layer
  = Ok (SNESRenderer.mk (SNESRenderer.scale self)
          (SNESRenderer.logical_size self)
          (list_sort SNESRenderer.key (SNESRenderer.layers self ++ [layer]))).
Proof.
  unfold SNESRenderer.drawable, SNESRenderer.add_layer.
  intros [-> ->]%andb_true_iff. reflexivity.
Qed.

Lemma add_layer_rejects self layer :
  SNESRenderer.drawable layer = false →
  SNESRenderer.add_layer self layer = Raise ValueError.
Proof.
  unfold SNESRenderer.drawable, SNESRenderer.add_layer.
  intros [-> | ->]%andb_false_iff; [done|].
  by rewrite orb_true_r.
Qed.

Lemma add_layers_cons self layer ls :
  SNESRenderer.add_layers self (layer :: ls)
  = if SNESRenderer.drawable layer
    then SNESRenderer.add_layers
           (SNESRenderer.mk (SNESRenderer.scale self)
              (SNESRenderer.logical_size self)
              (list_sort SNESRenderer.key (SNESRenderer.layers self ++ [layer])))
           ls
    else SNESRenderer.add_layers self ls.
Proof.
  simpl. destruct (SNESRenderer.drawable layer) eqn:Hd.
  - by rewrite add_layer_accepts.
  - by rewrite add_layer_rejects.
Qed.

(** The layer list stays sorted through any calls. *)
Lemma add_layers_sorted self ls :
  StronglySorted by_priority (SNESRenderer.layers self) →
  StronglySorted by_priority
    (SNESRenderer.layers (SNESRenderer.add_layers self ls)).
Proof.
  revert self. induction ls as [|layer ls IH]; intros self Hs; [done|].
  rewrite add_layers_cons. destruct (SNESRenderer.drawable layer).
  - apply IH. simpl. apply list_sort_sorted.
  - by apply IH.
Qed.

(** Among the layers of one priority the order is the order of the
    accepted calls. *)
Lemma add_layers_stable self ls (p : Z) :
  filter (λ o, SNESRenderer.key o = p)
         (SNESRenderer.layers (SNESRenderer.add_layers self ls))
  = filter (λ o, SNESRenderer.key o = p)
           (SNESRenderer.layers self
              ++ filter (λ o, SNESRenderer.drawable o) ls).
Proof.
  revert self. induction ls as [|layer ls IH]; intros self.
  - simpl. by rewrite filter_nil, app_nil_r.
  - rewrite add_layers_cons, filter_cons.
    destruct (SNESRenderer.drawable layer) eqn:Hd.
    + simpl. rewrite IH; simpl. rewrite !filter_app, list_sort_filter.
      rewrite filter_app, <-app_assoc. f_equal.
      rewrite !(filter_cons _ layer), filter_nil.
      by case_decide.
    + simpl. apply IH.
Qed.

Lemma add_layers_drawable self ls :
  Forall (λ o, SNESRenderer.drawable o = true) (SNESRenderer.layers self) →
  Forall (λ o, SNESRenderer.drawable o = true)
         (SNESRenderer.layers (SNESRenderer.add_layers self ls)).
Proof.
  revert self. induction ls as [|layer ls IH]; intros self Hall; [done|].
  rewrite add_layers_cons. destruct (SNESRenderer.drawable layer) eqn:Hd.
  - apply IH; simpl.
    rewrite list_sort_perm. apply Forall_app. split; [done|].
    by constructor.
  - by apply IH.
Qed.

End renderer.

Section renderer_spec.

Implicit Types (self : SNESRenderer.t) (layer : object) (ls : list object).

(** C6. Starting from a new renderer, after any sequence of [add_layer]
    calls the layer list is sorted by ascending priority, and the layers
    of any one priority stand in the order in which they were added.
    Layers added with priorities 3, 1, 2 end up in the order 1, 2, 3, and
    two layers of equal priority keep the order of their calls. *)
Theorem add_layer_priority_order (scale lw lh : Z) :
  (∀ ls,
     StronglySorted (λ a b, SNESRenderer.key a <= SNESRenderer.key b)
       (SNESRenderer.layers
          (SNESRenderer.add_layers (SNESRenderer.init scale lw lh) ls)))
  ∧ (∀ ls p,
       filter (λ o, SNESRenderer.key o = p)
         (SNESRenderer.layers
            (SNESRenderer.add_layers (SNESRenderer.init scale lw lh) ls))
       = filter (λ o, SNESRenderer.key o = p)
           (filter (λ o, SNESRenderer.drawable o) ls))
  ∧ (∀ a b c,
       SNESRenderer.drawable a = true → SNESRenderer.drawable b = true →
       SNESRenderer.drawable c = true →
       SNESRenderer.key a = 3 → SNESRenderer.key b = 1 →
       SNESRenderer.key c = 2 →
       SNESRenderer.layers
         (SNESRenderer.add_layers (SNESRenderer.init scale lw lh) [a; b; c])
       = [b; c; a])
  ∧ (∀ a b,
       SNESRenderer.drawable a = true → SNESRenderer.drawable b = true →
       SNESRenderer.key a = SNESRenderer.key b →
       SNESRenderer.layers
         (SNESRenderer.add_layers (SNESRenderer.init scale lw lh) [a; b])
       = [a; b]).
Proof.
  split; [|split; [|split]].
  - intros ls. apply add_layers_sorted. constructor.
  - intros ls p. by rewrite add_layers_stable.
  - intros a b c Ha Hb Hc Ka Kb Kc.
    rewrite !add_layers_cons, Ha, Hb, Hc. simpl.
    repeat (rewrite ?Ka, ?Kb, ?Kc; case_bool_decide; try lia; simpl).
    done.
  - intros a b Ha Hb Kab.
    rewrite !add_layers_cons, Ha, Hb. simpl.
    rewrite Kab. by rewrite bool_decide_eq_true_2.
Qed.

Lemma add_layer_priority_order_witness :
  SNESRenderer.layers
    (SNESRenderer.add_layers (SNESRenderer.init 2 256 224)
       [dot 3; dot 1; dot 2])
  = [dot 1; dot 2; dot 3].
Proof.
  apply (proj1 (proj2 (proj2 (add_layer_priority_order 2 256 224))));
    reflexivity.
Defined.

(** C10. [add_layer] raises [ValueError] for an object that lacks a
    [draw] attribute or a [priority] attribute, and the layer list is
    then what it was before the call; so the layers of a renderer, after
    any calls, all have both attributes. *)
Theorem add_layer_rejects_non_drawable :
  (∀ self layer,
     hasattr layer "draw" = false ∨ hasattr layer "priority" = false →
     SNESRenderer.add_layer self layer = Raise ValueError
     ∧ SNESRenderer.add_layers self [layer] = self)
  ∧ (∀ scale lw lh ls,
       Forall (λ o, hasattr o "draw" = true ∧ hasattr o "priority" = true)
         (SNESRenderer.layers
            (SNESRenderer.add_layers (SNESRenderer.init scale lw lh) ls))).
Proof.
  split.
  - intros self layer Hmiss.
    assert (SNESRenderer.drawable layer = false) as Hd.
    { unfold SNESRenderer.drawable. apply andb_false_iff. tauto. }
    split; [by apply add_layer_rejects|].
    by rewrite add_layers_cons, Hd.
  - intros scale lw lh ls.
    eapply Forall_impl.
    + apply add_layers_drawable. constructor.
    + intros o Ho. by apply andb_true_iff.
Qed.

Lemma add_layer_rejects_non_drawable_witness :
  SNESRenderer.add_layer (SNESRenderer.init 2 256 224) (no_draw 5)
    = Raise ValueError
  ∧ SNESRenderer.add_layers (SNESRenderer.init 2 256 224) [no_draw 5]
    = SNESRenderer.init 2 256 224.
Proof.
  apply (proj1 add_layer_rejects_non_drawable
           (SNESRenderer.init 2 256 224) (no_draw 5)).
  left. vm_compute. reflexivity.
Defined.

(** [add_layer] of the first snapshot sorts the same way; it only lacks
    the attribute check. *)
Lemma snapshot1_add_layer_order (layers : list object) (layer : object) (p : Z) :
  StronglySorted (λ a b, SNESRenderer.key a <= SNESRenderer.key b)
    (Snapshot1.add_layer layers layer)
  ∧ filter (λ o, SNESRenderer.key o = p) (Snapshot1.add_layer layers layer)
    = filter (λ o, SNESRenderer.key o = p) (layers ++ [layer]).
Proof.
  split.
  - apply (list_sort_sorted SNESRenderer.key).
  - apply (list_sort_filter SNESRenderer.key).
Qed.

End renderer_spec.

(** ** The update step: collision and clamping *)

Section update_step.

Variable g : Game.t.
Hypothesis tile_size_pos : 0 < Game.TILE_SIZE g.
Hypothesis map_rectangular : TileMap.rectangular (Game.tilemap g).

Implicit Types (s : Sprite.t) (keys : Keys) (cs : list (Z * Z)) (p : Z * Z).

Local Abbreviation on_grid p :=
  (0 <= p.1 `div` Game.TILE_SIZE g < TileMap.width (Game.tilemap g)
   ∧ 0 <= p.2 `div` Game.TILE_SIZE g < TileMap.height (Game.tilemap g)).

Lemma corner_hits_off_grid p : ¬ on_grid p → Game.corner_hits g p.
Proof. intros Hoff. left. exact Hoff. Qed.

Lemma corner_clear_on_grid p : ¬ Game.corner_hits g p → on_grid p.
Proof.
  intros Hclear. destruct (decide (on_grid p)) as [Hon|Hoff]; [done|].
  exfalso. by apply Hclear, corner_hits_off_grid.
Qed.

Lemma in_bounds_guard_game (tx ty : Z) :
  0 <= tx < TileMap.width (Game.tilemap g) →
  0 <= ty < TileMap.height (Game.tilemap g) →
  bool_decide (0 <= tx < TileMap.width (Game.tilemap g))
    && bool_decide (0 <= ty < TileMap.height (Game.tilemap g)) = true.
Proof. intros. by rewrite !bool_decide_eq_true_2. Qed.

Lemma out_of_bounds_guard_game (tx ty : Z) :
  ¬ (0 <= tx < TileMap.width (Game.tilemap g)
     ∧ 0 <= ty < TileMap.height (Game.tilemap g)) →
  bool_decide (0 <= tx < TileMap.width (Game.tilemap g))
    && bool_decide (0 <= ty < TileMap.height (Game.tilemap g)) = false.
Proof.
  intros Hout. apply andb_false_iff.
  destruct (decide (0 <= tx < TileMap.width (Game.tilemap g))) as [Hx|Hx].
  - right. apply bool_decide_eq_false_2. tauto.
  - left. by apply bool_decide_eq_false_2.
Qed.

(** The first loop answers whether some corner hits, and never raises. *)
Lemma collided_reflect cs :
  ∃ b, Game.collided g cs = Ok b ∧ (b = true ↔ Exists (Game.corner_hits g) cs).
Proof.
  induction cs as [|[px py] rest (b & Hb & Hiff)].
  - exists false. split; [done|]. rewrite Exists_nil. done.
  - simpl. rewrite !floordiv_Ok, !bind_Ok by lia.
    destruct (decide (on_grid (px, py))) as [[Hx Hy]|Hoff]; simpl in *.
    + rewrite in_bounds_guard_game by done.
      destruct (get_tile_index_total _ _ _ map_rectangular Hx Hy) as [v Hv].
      rewrite Hv, bind_Ok. case_bool_decide as Hwall.
      * exists true. split; [done|]. split; [|done]. intros _.
        apply Exists_cons_hd. right. simpl. by rewrite Hv, Hwall.
      * exists b. split; [done|]. rewrite Exists_cons, Hiff.
        split; [tauto|]. intros [[Hout|Hw]|Hrest]; [| |done]; simpl in *.
        -- tauto.
        -- rewrite Hv in Hw. congruence.
    + rewrite out_of_bounds_guard_game by done.
      exists true. split; [done|]. split; [|done]. intros _.
      apply Exists_cons_hd. by apply corner_hits_off_grid.
Qed.

(** So do the loops of the two axis tests. *)
Lemma collided_axis_reflect cs :
  ∃ b, Game.collided_axis g cs = Ok b
       ∧ (b = true ↔ Exists (Game.corner_hits g) cs).
Proof.
  induction cs as [|[px py] rest (b & Hb & Hiff)].
  - exists false. split; [done|]. rewrite Exists_nil. done.
  - simpl. rewrite !floordiv_Ok, !bind_Ok by lia.
    destruct (decide (on_grid (px, py))) as [[Hx Hy]|Hoff]; simpl in *.
    + rewrite in_bounds_guard_game by done. simpl.
      destruct (get_tile_index_total _ _ _ map_rectangular Hx Hy) as [v Hv].
      rewrite Hv, bind_Ok. case_bool_decide as Hwall.
      * exists true. split; [done|]. split; [|done]. intros _.
        apply Exists_cons_hd. right. simpl. by rewrite Hv, Hwall.
      * exists b. split; [done|]. rewrite Exists_cons, Hiff.
        split; [tauto|]. intros [[Hout|Hw]|Hrest]; [| |done]; simpl in *.
        -- tauto.
        -- rewrite Hv in Hw. congruence.
    + rewrite out_of_bounds_guard_game by done. simpl.
      exists true. split; [done|]. split; [|done]. intros _.
      apply Exists_cons_hd. by apply corner_hits_off_grid.
Qed.

(** The two loops are the same test. *)
Lemma collided_axis_collided cs : Game.collided_axis g cs = Game.collided g cs.
Proof.
  destruct (collided_reflect cs) as (b & Hb & Hiff).
  destruct (collided_axis_reflect cs) as (b' & Hb' & Hiff').
  rewrite Hb, Hb'. f_equal. destruct b, b'; try done.
  - apply Hiff', Hiff. done.
  - symmetry. apply Hiff, Hiff'. done.
Qed.

Lemma move_place keys s :
  Sprite.place (Game.move g keys s) (Sprite.x s) (Sprite.y s) = s.
Proof. destruct s, keys as [[] [] [] []]; reflexivity. Qed.

Lemma move_size keys s :
  Sprite.width (Game.move g keys s) = Sprite.width s
  ∧ Sprite.height (Game.move g keys s) = Sprite.height s.
Proof. destruct s, keys as [[] [] [] []]; split; reflexivity. Qed.

(** The response to a collision puts the sprite back at the previous
    position on both axes, whatever the two axis tests find: they are run
    on the sprite after both coordinates were put back. *)
Lemma respond_reverts (prev_x prev_y : Z) s :
  Game.respond g prev_x prev_y s = Ok (Sprite.place s prev_x prev_y).
Proof.
  unfold Game.respond. cbv zeta.
  match goal with
  | |- context [Game.collided_axis g ?cs] =>
      destruct (collided_axis_reflect cs) as (bx & Hbx & _); rewrite Hbx
  end.
  rewrite bind_Ok.
  match goal with
  | |- context [Game.collided_axis g ?cs] =>
      destruct (collided_axis_reflect cs) as (by_ & Hby & _); rewrite Hby
  end.
  rewrite bind_Ok. by destruct bx, by_.
Qed.

(** Lines 273-338 as a whole: the moved sprite when its four corners are
    free, the sprite as it was otherwise. *)
Lemma resolve_cases keys s :
  (Game.clear g (Game.move g keys s)
   ∧ Game.resolve g keys s = Ok (Game.move g keys s))
  ∨ (¬ Game.clear g (Game.move g keys s) ∧ Game.resolve g keys s = Ok s).
Proof.
  unfold Game.resolve. cbv zeta.
  destruct (collided_reflect (Game.corners (Sprite.get_rect (Game.move g keys s))))
    as (b & Hb & Hiff).
  rewrite Hb, bind_Ok. unfold Game.clear, Game.clear_at.
  change (Rect.mk _ _ _ _) with (Sprite.get_rect (Game.move g keys s)).
  destruct b.
  - right. split.
    + intros Hall.
      assert (Exists (Game.corner_hits g)
                (Game.corners (Sprite.get_rect (Game.move g keys s)))) as Hex
        by by apply Hiff.
      apply Exists_exists in Hex as (p & Hin & Hp).
      by apply (proj1 (Forall_forall _ _) Hall p Hin).
    + by rewrite respond_reverts, move_place.
  - left. split; [|done].
    apply Forall_forall. intros p Hin Hp.
    assert (false = true) as Hft; [|done].
    apply Hiff, Exists_exists. eauto.
Qed.

End update_step.

Section update_spec.

Implicit Types (g : Game.t) (s c : Sprite.t) (keys : Keys).

Lemma place_same s : Sprite.place s (Sprite.x s) (Sprite.y s) = s.
Proof. by destruct s. Qed.

(** A clear bounding box lies on the map. *)
Lemma clear_bounds g s :
  0 < Game.TILE_SIZE g → Game.clear g s →
  0 <= Sprite.x s
  ∧ Sprite.x s + Sprite.width s
    <= TileMap.width (Game.tilemap g) * Game.TILE_SIZE g
  ∧ 0 <= Sprite.y s
  ∧ Sprite.y s + Sprite.height s
    <= TileMap.height (Game.tilemap g) * Game.TILE_SIZE g.
Proof.
  intros Ht Hclear. unfold Game.clear, Game.clear_at, Game.corners in Hclear.
  apply Forall_cons in Hclear as [Htl Hclear].
  apply Forall_cons in Hclear as [_ Hclear].
  apply Forall_cons in Hclear as [_ Hclear].
  apply Forall_cons in Hclear as [Hbr _].
  apply corner_clear_on_grid in Htl as [Hx Hy].
  apply corner_clear_on_grid in Hbr as [Hr Hb].
  unfold Rect.left, Rect.top, Rect.right, Rect.bottom in *. simpl in *.
  set (T := Game.TILE_SIZE g) in *.
  pose proof (Z.div_lt_upper_bound (Sprite.x s) T 0 Ht).
  pose proof (Z.div_lt_upper_bound (Sprite.y s) T 0 Ht).
  pose proof (Z.div_le_lower_bound (Sprite.x s + Sprite.width s - 1) T
                (TileMap.width (Game.tilemap g)) Ht).
  pose proof (Z.div_le_lower_bound (Sprite.y s + Sprite.height s - 1) T
                (TileMap.height (Game.tilemap g)) Ht).
  lia.
Qed.

(** On a screen that is the map in pixels, clamping leaves a clear sprite
    where it is. *)
Lemma clamp_clear g s : Game.as_set_up g → Game.clear g s → Game.clamp g s = s.
Proof.
  intros (Ht & _ & Hscreen) Hclear.
  destruct (clear_bounds g s Ht Hclear) as (Hx0 & Hx1 & Hy0 & Hy1).
  unfold Game.clamp. rewrite Hscreen. simpl.
  unfold Py.max, Py.min.
  rewrite (Z.min_l (Sprite.x s)), (Z.min_l (Sprite.y s)) by lia.
  rewrite !Z.max_r by lia. apply place_same.
Qed.

(** C2. In the setting of the demo (positive tile size, rectangular map,
    logical screen equal to the map in pixels), a tick that starts with the
    four corners of the sprite on the grid and off the walls returns, and
    ends with the four corners of the sprite on the grid and off the
    walls; the corners are sampled at [right - 1] and [bottom - 1] and
    mapped to tiles by floor division. *)
Theorem update_game_state_keeps_clear g keys s :
  Game.as_set_up g → Game.clear g s →
  ∃ s', Game.update_game_state g keys s = Ok s' ∧ Game.clear g s'.
Proof.
  intros Hset Hclear. pose proof Hset as (Ht & Hrect & _).
  unfold Game.update_game_state.
  destruct (resolve_cases g Ht Hrect keys s) as [[Hfree ->]|[_ ->]];
    rewrite bind_Ok, clamp_clear by done; eauto.
Qed.

(** C7. A tick returns, and the position it returns is the resolved one
    clamped to the logical screen: when the sprite is no larger than the
    screen its box is inside the screen on both axes, a resolved [x]
    beyond [logical_width - width] ends at exactly that value, a negative
    one ends at 0, and the same holds for [y]. *)
Theorem update_game_state_clamps g keys s :
  0 < Game.TILE_SIZE g → TileMap.rectangular (Game.tilemap g) →
  Sprite.width s <= (SNESRenderer.logical_size (Game.renderer g)).1 →
  Sprite.height s <= (SNESRenderer.logical_size (Game.renderer g)).2 →
  ∃ c s',
    Game.resolve g keys s = Ok c
    ∧ Game.update_game_state g keys s = Ok s'
    ∧ Sprite.width s' = Sprite.width s ∧ Sprite.height s' = Sprite.height s
    ∧ (0 <= Sprite.x s'
       ∧ Sprite.x s' + Sprite.width s'
         <= (SNESRenderer.logical_size (Game.renderer g)).1
       ∧ 0 <= Sprite.y s'
       ∧ Sprite.y s' + Sprite.height s'
         <= (SNESRenderer.logical_size (Game.renderer g)).2)
    ∧ ((SNESRenderer.logical_size (Game.renderer g)).1 - Sprite.width s
         < Sprite.x c →
       Sprite.x s'
       = (SNESRenderer.logical_size (Game.renderer g)).1 - Sprite.width s)
    ∧ (Sprite.x c < 0 → Sprite.x s' = 0)
    ∧ ((SNESRenderer.logical_size (Game.renderer g)).2 - Sprite.height s
         < Sprite.y c →
       Sprite.y s'
       = (SNESRenderer.logical_size (Game.renderer g)).2 - Sprite.height s)
    ∧ (Sprite.y c < 0 → Sprite.y s' = 0)
    ∧ (0 <= Sprite.x c
         <= (SNESRenderer.logical_size (Game.renderer g)).1 - Sprite.width s →
       Sprite.x s' = Sprite.x c)
    ∧ (0 <= Sprite.y c
         <= (SNESRenderer.logical_size (Game.renderer g)).2 - Sprite.height s →
       Sprite.y s' = Sprite.y c).
Proof.
  intros Ht Hrect Hw Hh.
  assert (∃ c, Game.resolve g keys s = Ok c
               ∧ Sprite.width c = Sprite.width s
               ∧ Sprite.height c = Sprite.height s) as (c & Hc & Hcw & Hch).
  { destruct (resolve_cases g Ht Hrect keys s) as [[_ ->]|[_ ->]].
    - eexists. split; [done|]. apply move_size.
    - eauto. }
  exists c, (Game.clamp g c).
  split; [done|]. split; [unfold Game.update_game_state; by rewrite Hc|].
  unfold Game.clamp.
  destruct (SNESRenderer.logical_size (Game.renderer g)) as [lw lh].
  simpl in *. unfold Py.max, Py.min. lia.
Qed.

End update_spec.

(** ** The demo *)

Section demo.

Lemma clear_collided (g : Game.t) (s : Sprite.t) :
  0 < Game.TILE_SIZE g → TileMap.rectangular (Game.tilemap g) →
  Game.collided g (Game.corners (Sprite.get_rect s)) = Ok false →
  Game.clear g s.
Proof.
  intros Ht Hrect Hfree.
  destruct (collided_reflect g Ht Hrect (Game.corners (Sprite.get_rect s)))
    as (b & Hb & Hiff).
  rewrite Hfree in Hb. injection Hb as <-.
  apply Forall_forall. intros p Hin Hp.
  assert (false = true) as Hft; [|done].
  apply Hiff, Exists_exists. eauto.
Qed.

Lemma demo_as_set_up : Game.as_set_up Demo.g.
Proof.
  split; [|split].
  - vm_compute. reflexivity.
  - split; [vm_compute; reflexivity|].
    vm_compute. repeat constructor.
  - vm_compute. reflexivity.
Qed.

(** The demo starts with the player on the floor tile (1, 1). *)
Lemma demo_player_clear : Game.clear Demo.g Demo.player.
Proof.
  destruct demo_as_set_up as (Ht & Hrect & _).
  apply clear_collided; [done..|]. vm_compute. reflexivity.
Qed.

Lemma update_game_state_keeps_clear_witness :
  ∃ s', Game.update_game_state Demo.g Demo.LEFT_DOWN
          (Sprite.place Demo.player 16 20) = Ok s'
        ∧ Game.clear Demo.g s'.
Proof.
  apply (update_game_state_keeps_clear Demo.g Demo.LEFT_DOWN
           (Sprite.place Demo.player 16 20)).
  - split; [|split].
    + vm_compute. reflexivity.
    + split; [vm_compute; reflexivity|]. vm_compute. repeat constructor.
    + vm_compute. reflexivity.
  - apply clear_collided.
    + vm_compute. reflexivity.
    + split; [vm_compute; reflexivity|]. vm_compute. repeat constructor.
    + vm_compute. reflexivity.
Defined.

Lemma update_game_state_clamps_witness :
  ∃ s', Game.update_game_state Demo.g Demo.NONE
          (Sprite.place Demo.player 300 20) = Ok s'
        ∧ Sprite.x s' = 248 ∧ Sprite.y s' = 20.
Proof.
  destruct (update_game_state_clamps Demo.g Demo.NONE
              (Sprite.place Demo.player 300 20))
    as (c & s' & Hc & Hs' & _ & _ & _ & Hx & _ & _ & _ & _ & Hy).
  - vm_compute. reflexivity.
  - split; [vm_compute; reflexivity|]. vm_compute. repeat constructor.
  - by vm_compute.
  - by vm_compute.
  - vm_compute in Hc. injection Hc as <-.
    exists s'. split; [exact Hs'|]. split.
    + rewrite Hx; vm_compute; reflexivity.
    + rewrite Hy; [reflexivity|]. by vm_compute.
Defined.

(** C1 on the code.  Two ticks with LEFT held take the player of the demo
    from (20, 20) to (16, 20), against the wall on its left.  A tick with
    LEFT and DOWN held then proposes (14, 22), whose left corners are in
    the wall.  The update step ends that tick at (16, 20): both axes are
    back at the previous position.  The resolver of the specification,
    which tests X with the previous Y and then Y with the X that was kept,
    ends it at (16, 22): X reverted, Y moved. *)
Theorem update_game_state_reverts_both_axes :
  Sprite.position <$> Game.ticks Demo.g [Demo.LEFT; Demo.LEFT] Demo.player
    = Ok (16, 20)
  ∧ Sprite.position <$> Game.update_game_state Demo.g Demo.LEFT_DOWN
                          (Sprite.place Demo.player 16 20)
    = Ok (16, 20)
  ∧ Sprite.position <$> SpecResolver.update Demo.g Demo.LEFT_DOWN
                          (Sprite.place Demo.player 16 20)
    = Ok (16, 22).
Proof. repeat split; vm_compute; reflexivity. Qed.

(** Whatever the tile size and the layout, the block under [__main__]
    sets the game up as the update step expects it, provided the tile size
    is positive and the rows of the layout are as long as the first. *)
Lemma setup_as_set_up (tile_size move_speed tile_wall : Z)
    (layout : list (list Z)) (tileset : TileSet.t) (player : Sprite.t)
    (g : Game.t) :
  0 < tile_size →
  (∀ first, layout !! 0%nat = Some first →
            Forall (λ row, Py.len row = Py.len first) layout) →
  Demo.setup tile_size move_speed tile_wall layout tileset player = Ok g →
  Game.as_set_up g.
Proof.
  intros Ht Hrows Hsetup. unfold Demo.setup in Hsetup.
  destruct layout as [|first rest]; [discriminate|].
  specialize (Hrows first eq_refl).
  rewrite (getitem_lookup _ 0 first) in Hsetup by done.
  rewrite bind_Ok in Hsetup. cbv zeta in Hsetup.
  rewrite add_layer_accepts in Hsetup by reflexivity.
  rewrite bind_Ok in Hsetup.
  rewrite add_layer_accepts in Hsetup by reflexivity.
  rewrite bind_Ok in Hsetup. injection Hsetup as <-.
  split; [done|]. split; [|reflexivity].
  split; [reflexivity|]. exact Hrows.
Qed.

End demo.

(** * Further properties of the engine *)

(** ** TileMap: writes, reads and the declared size *)

Section tile_map_writes.

Implicit Types (tm : TileMap.t) (x y k : Z).

(** X1. On a rectangular map [set_tile] never raises, whatever the
    coordinate, and the map it returns is rectangular with the same width,
    height, priority and tile set. *)
Theorem set_tile_keeps_shape tm x y k :
  TileMap.rectangular tm →
  ∃ tm' out,
    TileMap.set_tile tm x y k = Ok (tm', out)
    ∧ TileMap.rectangular tm'
    ∧ TileMap.width tm' = TileMap.width tm
    ∧ TileMap.height tm' = TileMap.height tm
    ∧ TileMap.priority tm' = TileMap.priority tm
    ∧ TileMap.tileset tm' = TileMap.tileset tm.
Proof.
  intros Hrect.
  destruct (decide (0 <= x < TileMap.width tm ∧ 0 <= y < TileMap.height tm))
    as [[Hx Hy]|Hout].
  - destruct (rectangular_row tm y Hrect Hy) as (row & Hrow & Hw).
    pose proof (set_tile_in_bounds tm x y k row Hx Hy Hrow Hw) as Hset.
    do 2 eexists. split; [exact Hset|].
    split; [by eapply set_tile_rectangular|]. done.
  - exists tm, [TileMap.warning x y]. split; [|done].
    unfold TileMap.set_tile. by rewrite out_of_bounds_guard.
Qed.

Lemma set_tile_keeps_shape_witness :
  ∃ tm' out,
    TileMap.set_tile (TileMap.init 3 2 (TileSet.mk [] 8) 0) 2 1 9
      = Ok (tm', out)
    ∧ TileMap.rectangular tm'
    ∧ TileMap.width tm' = 3 ∧ TileMap.height tm' = 2
    ∧ TileMap.priority tm' = 0 ∧ TileMap.tileset tm' = TileSet.mk [] 8.
Proof.
  apply (set_tile_keeps_shape (TileMap.init 3 2 (TileSet.mk [] 8) 0) 2 1 9).
  split; [reflexivity | repeat constructor].
Defined.

(** The map after an in-bounds write, as a value. *)
Lemma set_tile_written tm x y k :
  TileMap.rectangular tm →
  0 <= x < TileMap.width tm → 0 <= y < TileMap.height tm →
  ∃ row,
    TileMap.map_data tm !! Z.to_nat y = Some row
    ∧ Py.len row = TileMap.width tm
    ∧ TileMap.set_tile tm x y k
      = Ok (TileMap.mk (TileMap.width tm) (TileMap.height tm)
              (<[Z.to_nat y := <[Z.to_nat x := k]> row]> (TileMap.map_data tm))
              (TileMap.priority tm) (TileMap.tileset tm), []).
Proof.
  intros Hrect Hx Hy.
  destruct (rectangular_row tm y Hrect Hy) as (row & Hrow & Hw).
  exists row. split; [done|]. split; [done|].
  by apply set_tile_in_bounds.
Qed.

(** X2. Two in-bounds writes on a rectangular map both succeed.  At the
    same cell the second write wins: the result is the map a single write
    of the second index gives.  At different cells the order of the two
    writes does not matter. *)
Theorem set_tile_twice tm x1 y1 k1 x2 y2 k2 :
  TileMap.rectangular tm →
  0 <= x1 < TileMap.width tm → 0 <= y1 < TileMap.height tm →
  0 <= x2 < TileMap.width tm → 0 <= y2 < TileMap.height tm →
  ∃ a b ab ba,
    TileMap.set_tile tm x1 y1 k1 = Ok (a, [])
    ∧ TileMap.set_tile a x2 y2 k2 = Ok (ab, [])
    ∧ TileMap.set_tile tm x2 y2 k2 = Ok (b, [])
    ∧ TileMap.set_tile b x1 y1 k1 = Ok (ba, [])
    ∧ ((x1, y1) = (x2, y2) → ab = b)
    ∧ ((x1, y1) ≠ (x2, y2) → ab = ba).
Proof.
  intros Hrect Hx1 Hy1 Hx2 Hy2.
  destruct (set_tile_written tm x1 y1 k1 Hrect Hx1 Hy1) as (r1 & Hr1 & Hw1 & Ha).
  destruct (set_tile_written tm x2 y2 k2 Hrect Hx2 Hy2) as (r2 & Hr2 & Hw2 & Hb).
  pose proof (set_tile_rectangular _ _ _ _ _ _ Hrect Ha) as Hra.
  pose proof (set_tile_rectangular _ _ _ _ _ _ Hrect Hb) as Hrb.
  pose proof (lookup_lt_Some _ _ _ Hr1) as Hlt1.
  pose proof (lookup_lt_Some _ _ _ Hr2) as Hlt2.
  unfold Py.len in Hw1, Hw2.
  destruct (set_tile_written _ x2 y2 k2 Hra Hx2 Hy2) as (r2' & Hr2' & _ & Hab).
  destruct (set_tile_written _ x1 y1 k1 Hrb Hx1 Hy1) as (r1' & Hr1' & _ & Hba).
  simpl in *.
  do 4 eexists. split; [exact Ha|]. split; [exact Hab|].
  split; [exact Hb|]. split; [exact Hba|]. split.
  - intros [= <- <-]. f_equal.
    rewrite list_lookup_insert_eq in Hr2' by done. injection Hr2' as <-.
    rewrite Hr1 in Hr2. injection Hr2 as <-.
    by rewrite list_insert_insert_eq, list_insert_insert_eq.
  - intros Hne. f_equal.
    destruct (decide (y1 = y2)) as [<-|Hy].
    + rewrite list_lookup_insert_eq in Hr2', Hr1' by done.
      injection Hr2' as <-. injection Hr1' as <-.
      rewrite Hr1 in Hr2. injection Hr2 as <-.
      rewrite !list_insert_insert_eq. f_equal.
      apply list_insert_insert_ne. intros Heq. apply Hne. f_equal. lia.
    + rewrite list_lookup_insert_ne in Hr2', Hr1' by lia.
      rewrite Hr2 in Hr2'. injection Hr2' as <-.
      rewrite Hr1 in Hr1'. injection Hr1' as <-.
      apply list_insert_insert_ne. lia.
Qed.

Lemma set_tile_twice_witness :
  ∃ a b ab ba,
    TileMap.set_tile (TileMap.init 3 2 (TileSet.mk [] 8) 0) 0 1 4 = Ok (a, [])
    ∧ TileMap.set_tile a 2 0 5 = Ok (ab, [])
    ∧ TileMap.set_tile (TileMap.init 3 2 (TileSet.mk [] 8) 0) 2 0 5 = Ok (b, [])
    ∧ TileMap.set_tile b 0 1 4 = Ok (ba, [])
    ∧ ((0, 1) = (2, 0) → ab = b)
    ∧ ((0, 1) ≠ (2, 0) → ab = ba).
Proof.
  apply (set_tile_twice (TileMap.init 3 2 (TileSet.mk [] 8) 0) 0 1 4 2 0 5).
  - split; [reflexivity | repeat constructor].
  - simpl; lia.
  - simpl; lia.
  - simpl; lia.
  - simpl; lia.
Defined.

(** X3. On a rectangular map [get_tile_index] never raises: inside the
    grid it returns the cell stored at row [y], column [x] of [map_data],
    and outside the grid it returns -1. *)
Theorem get_tile_index_reads tm x y :
  TileMap.rectangular tm →
  (0 <= x < TileMap.width tm ∧ 0 <= y < TileMap.height tm →
   ∃ row v, TileMap.map_data tm !! Z.to_nat y = Some row
            ∧ row !! Z.to_nat x = Some v
            ∧ TileMap.get_tile_index tm x y = Ok v)
  ∧ (¬ (0 <= x < TileMap.width tm ∧ 0 <= y < TileMap.height tm) →
     TileMap.get_tile_index tm x y = Ok (-1)).
Proof.
  intros Hrect. split.
  - intros [Hx Hy].
    destruct (rectangular_row tm y Hrect Hy) as (row & Hrow & Hw).
    destruct (getitem_in_range row x) as (v & Hv & _); [lia|].
    exists row, v. split; [done|]. split; [done|].
    by apply (get_tile_index_lookup tm x y row v).
  - apply get_tile_index_out.
Qed.

Lemma get_tile_index_reads_witness :
  (0 <= 15 < 16 ∧ 0 <= 2 < 14 →
   ∃ row v, Demo.map_layout !! Z.to_nat 2 = Some row
            ∧ row !! Z.to_nat 15 = Some v
            ∧ TileMap.get_tile_index (Game.tilemap Demo.g) 15 2 = Ok v)
  ∧ (¬ (0 <= 15 < 16 ∧ 0 <= 2 < 14) →
     TileMap.get_tile_index (Game.tilemap Demo.g) 15 2 = Ok (-1)).
Proof.
  apply (get_tile_index_reads (Game.tilemap Demo.g) 15 2).
  split; [vm_compute; reflexivity|]. vm_compute. repeat constructor.
Defined.

(** X4. The guards of [get_tile_index] and [set_tile] test the declared
    width and height, not the rows that are there.  When [map_data] was
    replaced by rows that do not reach a coordinate inside the declared
    size (the row is missing, or is too short), both calls raise
    [IndexError] at that coordinate. *)
Theorem ragged_map_raises tm x y k :
  0 <= x < TileMap.width tm → 0 <= y < TileMap.height tm →
  (Py.len (TileMap.map_data tm) <= y
   ∨ ∃ row, TileMap.map_data tm !! Z.to_nat y = Some row ∧ Py.len row <= x) →
  TileMap.get_tile_index tm x y = Raise IndexError
  ∧ TileMap.set_tile tm x y k = Raise IndexError.
Proof.
  intros Hx Hy Hshort.
  unfold TileMap.get_tile_index, TileMap.set_tile.
  rewrite in_bounds_guard by done.
  rewrite (getitem_nonneg _ y) by lia.
  destruct Hshort as [Hrows|(row & Hrow & Hlen)].
  - rewrite (lookup_ge_None_2 (TileMap.map_data tm)); [done|].
    unfold Py.len in Hrows. lia.
  - rewrite Hrow, !bind_Ok. split.
    + rewrite getitem_nonneg by lia.
      rewrite (lookup_ge_None_2 row); [done|]. unfold Py.len in Hlen. lia.
    + unfold Py.setitem, Py.norm_index.
      rewrite (bool_decide_eq_false_2 (x < 0)) by lia. cbv iota.
      rewrite (bool_decide_eq_false_2 (0 <= x < Py.len row)) by lia. done.
Qed.

Lemma ragged_map_raises_witness :
  TileMap.get_tile_index
    (TileMap.mk 3 2 [[0; 0; 0]; [0]] 0 (TileSet.mk [] 8)) 2 1
    = Raise IndexError
  ∧ TileMap.set_tile
      (TileMap.mk 3 2 [[0; 0; 0]; [0]] 0 (TileSet.mk [] 8)) 2 1 7
    = Raise IndexError.
Proof.
  apply (ragged_map_raises
           (TileMap.mk 3 2 [[0; 0; 0]; [0]] 0 (TileSet.mk [] 8)) 2 1 7).
  - simpl; lia.
  - simpl; lia.
  - right. exists [0]. split; [reflexivity|]. unfold Py.len; simpl; lia.
Defined.

End tile_map_writes.

(** ** TileSet: tile sizes that are not positive, and the size of a tile *)

Section tile_set_sizes.

Implicit Types (surface : Surface.t) (tile_size i : Z).

Lemma TileSet_init_nonpositive surface tile_size :
  tile_size < 0 →
  TileSet.init surface tile_size = Ok (TileSet.mk [] tile_size)
  ∧ ∀ i, TileSet.get (TileSet.mk [] tile_size) i = Raise PygameError.
Proof.
  intros Hneg. split.
  - unfold TileSet.init, Surface.get_size.
    rewrite !floordiv_Ok, !bind_Ok by lia.
    assert (Z.of_nat (Surface.h surface) `div` tile_size <= 0) as Hrows.
    { pose proof (Z.div_mod (Z.of_nat (Surface.h surface)) tile_size).
      pose proof (Z.mod_neg_bound (Z.of_nat (Surface.h surface)) tile_size).
      nia. }
    unfold Py.range at 1. rewrite Z2Nat.nonpos by done. reflexivity.
  - intros i. unfold TileSet.get, Surface.create. simpl.
    rewrite bool_decide_eq_false_2 by lia. reflexivity.
Qed.

(** X5. A tile size of 0 makes [TileSet.__init__] raise
    [ZeroDivisionError].  A negative tile size is accepted: the loops run
    over empty ranges, the set has no tile, and every later [get] raises
    when it asks pygame for a placeholder of negative size. *)
Theorem TileSet_init_bad_tile_size surface :
  TileSet.init surface 0 = Raise ZeroDivisionError
  ∧ ∀ tile_size, tile_size < 0 →
      TileSet.init surface tile_size = Ok (TileSet.mk [] tile_size)
      ∧ ∀ i, TileSet.get (TileSet.mk [] tile_size) i = Raise PygameError.
Proof.
  split; [reflexivity|]. apply TileSet_init_nonpositive.
Qed.

Lemma TileSet_init_bad_tile_size_witness :
  TileSet.init (Surface.mk 16 8 []) (-8) = Ok (TileSet.mk [] (-8))
  ∧ ∀ i, TileSet.get (TileSet.mk [] (-8)) i = Raise PygameError.
Proof.
  apply (proj2 (TileSet_init_bad_tile_size (Surface.mk 16 8 [])) (-8)). lia.
Defined.

(** X6. Every tile of a set that [TileSet.__init__] returns is a square
    of the tile size the set records. *)
Theorem TileSet_init_tile_sizes surface tile_size (tset : TileSet.t) :
  TileSet.init surface tile_size = Ok tset →
  Forall (λ tile, Surface.get_size tile
                  = (TileSet.tile_size_px tset, TileSet.tile_size_px tset))
         (TileSet.tiles tset).
Proof.
  intros Hinit.
  destruct (decide (tile_size = 0)) as [->|Hnz]; [discriminate|].
  destruct (decide (tile_size < 0)) as [Hneg|Hpos].
  - destruct (TileSet_init_nonpositive surface tile_size Hneg) as [Hempty _].
    rewrite Hempty in Hinit. injection Hinit as <-. constructor.
  - rewrite init_tiles in Hinit by lia. injection Hinit as <-. simpl.
    apply Forall_forall. intros tile Hin.
    apply list_elem_of_join in Hin as (row & Htile & Hrow).
    apply list_elem_of_fmap in Hrow as (ty_idx & -> & _).
    apply list_elem_of_fmap in Htile as (tx_idx & -> & _).
    unfold Surface.get_size, Surface.crop. simpl. f_equal; lia.
Qed.

Lemma TileSet_init_tile_sizes_witness :
  Forall (λ tile, Surface.get_size tile = (16, 16))
         (TileSet.tiles (the Demo.tileset eq_refl)).
Proof.
  apply (TileSet_init_tile_sizes (the Demo.tilesheet_surface eq_refl) 16
           (the Demo.tileset eq_refl)).
  vm_compute. reflexivity.
Defined.

End tile_set_sizes.

(** ** SNESRenderer: what a stable sort by priority determines *)

Section sort_unique.

Context {A : Type} (key : A → Z).

Local Abbreviation key_le := (λ a b : A, key a <= key b).

Lemma filter_key_head (a : A) (l : list A) :
  filter (λ x, key x = key a) (a :: l) = a :: filter (λ x, key x = key a) l.
Proof. rewrite filter_cons. by rewrite decide_True. Qed.

Lemma filter_key_nonempty (p : Z) (l : list A) (b : A) (k : list A) :
  filter (λ x, key x = p) l = b :: k → ∃ c, c ∈ l ∧ key c = p.
Proof.
  intros Hf. exists b.
  assert (b ∈ filter (λ x, key x = p) l) as Hb by (rewrite Hf; left).
  apply list_elem_of_filter in Hb. tauto.
Qed.

Lemma sorted_head_least (a : A) (l : list A) (c : A) :
  StronglySorted key_le (a :: l) → c ∈ a :: l → key a <= key c.
Proof.
  intros Hs [->|Hc]%elem_of_cons; [lia|].
  apply StronglySorted_inv in Hs as [_ Hall].
  by apply (proj1 (Forall_forall _ _) Hall).
Qed.

(** Two lists sorted by key that agree, key by key, on the elements of
    that key and their order are the same list. *)
Lemma sorted_stable_unique (l1 l2 : list A) :
  StronglySorted key_le l1 → StronglySorted key_le l2 →
  (∀ p, filter (λ x, key x = p) l1 = filter (λ x, key x = p) l2) →
  l1 = l2.
Proof.
  revert l2. induction l1 as [|a l1 IH]; intros l2 Hs1 Hs2 Hf.
  - destruct l2 as [|b l2]; [done|].
    specialize (Hf (key b)). rewrite filter_key_head in Hf. done.
  - destruct l2 as [|b l2].
    { specialize (Hf (key a)). rewrite filter_key_head in Hf. done. }
    assert (key a = key b) as Hab.
    { pose proof (Hf (key a)) as Ha. rewrite filter_key_head in Ha.
      symmetry in Ha. apply filter_key_nonempty in Ha as (c & Hc & Hkc).
      pose proof (sorted_head_least _ _ _ Hs2 Hc).
      pose proof (Hf (key b)) as Hb. rewrite (filter_key_head b) in Hb.
      apply filter_key_nonempty in Hb as (d & Hd & Hkd).
      pose proof (sorted_head_least _ _ _ Hs1 Hd). lia. }
    pose proof (Hf (key a)) as Hhead.
    rewrite filter_key_head, Hab, filter_key_head in Hhead.
    injection Hhead as -> Htail.
    f_equal. apply IH.
    + by apply StronglySorted_inv in Hs1 as [? _].
    + by apply StronglySorted_inv in Hs2 as [? _].
    + intros p. destruct (decide (p = key b)) as [->|Hp]; [done|].
      specialize (Hf p). rewrite !filter_cons in Hf.
      rewrite !decide_False in Hf by done. done.
Qed.

Lemma sort_insert_least (a : A) (l : list A) :
  Forall (λ x, key a <= key x) l → sort_insert key a l = a :: l.
Proof.
  intros Hall. destruct l as [|b l]; [done|]. simpl.
  apply Forall_cons in Hall as [Hab _]. by rewrite bool_decide_eq_true_2.
Qed.

(** Sorting a sorted list with one more element at its end puts that
    element behind everything that is not larger and in front of the rest. *)
Lemma list_sort_snoc (l : list A) (a : A) :
  StronglySorted key_le l →
  ∃ before after,
    l = before ++ after
    ∧ list_sort key (l ++ [a]) = before ++ a :: after
    ∧ Forall (λ x, key x <= key a) before
    ∧ Forall (λ x, key a < key x) after.
Proof.
  induction 1 as [|b l Hs (bf & af & -> & Hsort & Hbf & Haf) Hb].
  - exists [], []. done.
  - simpl. fold (list_sort key ((bf ++ af) ++ [a])). rewrite Hsort.
    destruct (decide (key b <= key a)) as [Hba|Hba].
    + exists (b :: bf), af. split; [done|]. split.
      * rewrite sort_insert_least; [done|].
        apply Forall_app. apply Forall_app in Hb as [Hb1 Hb2].
        split; [done|]. by constructor.
      * split; [by constructor | done].
    + destruct bf as [|c bf].
      * exists [], (b :: af). simpl in *. split; [done|]. split.
        -- rewrite bool_decide_eq_false_2 by done.
           by rewrite sort_insert_least.
        -- split; [done|]. constructor; [lia|done].
      * apply Forall_cons in Hbf as [Hca _].
        apply Forall_cons in Hb as [Hbc _]. lia.
Qed.

End sort_unique.

Section renderer_order.

Implicit Types (self : SNESRenderer.t) (layer : object) (ls : list object).

Local Abbreviation by_priority :=
  (λ a b : object, SNESRenderer.key a <= SNESRenderer.key b).

(** X7. A call of [add_layer] that returns has kept every layer and added
    the new one exactly once: the new list is a rearrangement of the old
    one with the layer appended; the scale and the logical size are
    untouched, and the layer had both attributes. *)
Theorem add_layer_keeps_layers self layer (self' : SNESRenderer.t) :
  SNESRenderer.add_layer self layer = Ok self' →
  SNESRenderer.layers self' ≡ₚ SNESRenderer.layers self ++ [layer]
  ∧ SNESRenderer.scale self' = SNESRenderer.scale self
  ∧ SNESRenderer.logical_size self' = SNESRenderer.logical_size self
  ∧ SNESRenderer.drawable layer = true.
Proof.
  intros Hadd. destruct (SNESRenderer.drawable layer) eqn:Hd.
  - rewrite add_layer_accepts in Hadd by done. injection Hadd as <-.
    simpl. split; [apply list_sort_perm | done].
  - by rewrite add_layer_rejects in Hadd.
Qed.

Lemma add_layer_keeps_layers_witness :
  [dot 1; dot 2] ≡ₚ [dot 2] ++ [dot 1]
  ∧ SNESRenderer.scale (SNESRenderer.mk 3 (256, 224) [dot 1; dot 2]) = 3
  ∧ SNESRenderer.logical_size (SNESRenderer.mk 3 (256, 224) [dot 1; dot 2])
    = (256, 224)
  ∧ SNESRenderer.drawable (dot 1) = true.
Proof.
  apply (add_layer_keeps_layers
           (SNESRenderer.mk 3 (256, 224) [dot 2]) (dot 1)
           (SNESRenderer.mk 3 (256, 224) [dot 1; dot 2])).
  reflexivity.
Defined.

(** X8. Added to a layer list that is sorted, an accepted layer goes
    behind every layer whose priority is not larger than its own and in
    front of every layer of larger priority; the other layers keep their
    places. *)
Theorem add_layer_position self layer :
  StronglySorted by_priority (SNESRenderer.layers self) →
  SNESRenderer.drawable layer = true →
  ∃ before after,
    SNESRenderer.layers self = before ++ after
    ∧ SNESRenderer.add_layer self layer
      = Ok (SNESRenderer.mk (SNESRenderer.scale self)
              (SNESRenderer.logical_size self) (before ++ layer :: after))
    ∧ Forall (λ o, SNESRenderer.key o <= SNESRenderer.key layer) before
    ∧ Forall (λ o, SNESRenderer.key layer < SNESRenderer.key o) after.
Proof.
  intros Hs Hd.
  destruct (list_sort_snoc SNESRenderer.key _ layer Hs)
    as (before & after & Hl & Hsort & Hb & Ha).
  exists before, after. split; [done|]. split; [|done].
  by rewrite add_layer_accepts, Hsort.
Qed.

Lemma add_layer_position_witness :
  ∃ before after,
    [dot 1; dot 2; dot 3] = before ++ after
    ∧ SNESRenderer.add_layer
        (SNESRenderer.mk 3 (256, 224) [dot 1; dot 2; dot 3]) (dot 2)
      = Ok (SNESRenderer.mk 3 (256, 224) (before ++ dot 2 :: after))
    ∧ Forall (λ o, SNESRenderer.key o <= SNESRenderer.key (dot 2)) before
    ∧ Forall (λ o, SNESRenderer.key (dot 2) < SNESRenderer.key o) after.
Proof.
  apply (add_layer_position
           (SNESRenderer.mk 3 (256, 224) [dot 1; dot 2; dot 3]) (dot 2)).
  - repeat constructor; simpl; vm_compute; discriminate.
  - reflexivity.
Defined.

(** X9. Sorting after every call gives what one sort at the end would
    give: after any calls on a new renderer the layer list is the stable
    sort, by priority, of the accepted layers in call order. *)
Theorem add_layers_sort_once (scale lw lh : Z) ls :
  SNESRenderer.layers
    (SNESRenderer.add_layers (SNESRenderer.init scale lw lh) ls)
  = list_sort SNESRenderer.key (filter (λ o, SNESRenderer.drawable o) ls).
Proof.
  apply (sorted_stable_unique SNESRenderer.key).
  - apply add_layers_sorted. constructor.
  - apply list_sort_sorted.
  - intros p. by rewrite add_layers_stable, list_sort_filter.
Qed.

Lemma filter_key_absent (p : Z) ls :
  p ∉ SNESRenderer.key <$> ls →
  filter (λ o, SNESRenderer.key o = p)
         (filter (λ o, SNESRenderer.drawable o) ls) = [].
Proof.
  induction ls as [|a ls IH]; [done|].
  rewrite fmap_cons, not_elem_of_cons. intros [Hpa Hp].
  rewrite filter_cons. case_decide; [|by apply IH].
  rewrite filter_cons, decide_False by done. by apply IH.
Qed.

Lemma filter_key_short (p : Z) ls :
  NoDup (SNESRenderer.key <$> ls) →
  (length (filter (λ o, SNESRenderer.key o = p)
                  (filter (λ o, SNESRenderer.drawable o) ls)) <= 1)%nat.
Proof.
  induction ls as [|a ls IH]; [simpl; lia|].
  rewrite fmap_cons, NoDup_cons. intros [Ha Hnd].
  rewrite filter_cons. case_decide; [|by apply IH].
  rewrite filter_cons. case_decide as Hp; [|by apply IH].
  subst p. rewrite filter_key_absent by done. simpl. lia.
Qed.

Lemma perm_short_eq {A} (l1 l2 : list A) :
  l1 ≡ₚ l2 → (length l1 <= 1)%nat → l1 = l2.
Proof.
  intros Hp Hlen. destruct l1 as [|a [|b l1]]; simpl in Hlen; [| |lia].
  - by apply Permutation_nil_l.
  - by apply Permutation_singleton_l.
Qed.

(** X10. When no two of the layers have the same priority, the order of
    the [add_layer] calls does not matter: any rearrangement of the calls
    leaves the renderer with the same layer list. *)
Theorem add_layers_order_independent (scale lw lh : Z) ls ls' :
  ls ≡ₚ ls' → NoDup (SNESRenderer.key <$> ls) →
  SNESRenderer.layers
    (SNESRenderer.add_layers (SNESRenderer.init scale lw lh) ls)
  = SNESRenderer.layers
      (SNESRenderer.add_layers (SNESRenderer.init scale lw lh) ls').
Proof.
  intros Hperm Hnd. apply (sorted_stable_unique SNESRenderer.key).
  - apply add_layers_sorted. constructor.
  - apply add_layers_sorted. constructor.
  - intros p. rewrite !add_layers_stable. simpl.
    apply perm_short_eq; [by rewrite Hperm|]. by apply filter_key_short.
Qed.

Lemma add_layers_order_independent_witness :
  SNESRenderer.layers
    (SNESRenderer.add_layers (SNESRenderer.init 3 256 224)
       [dot 3; no_draw 4; dot 1; dot 2])
  = SNESRenderer.layers
      (SNESRenderer.add_layers (SNESRenderer.init 3 256 224)
         [dot 2; dot 3; dot 1; no_draw 4]).
Proof.
  apply (add_layers_order_independent 3 256 224
           [dot 3; no_draw 4; dot 1; dot 2] [dot 2; dot 3; dot 1; no_draw 4]).
  - apply (Permutation_cons_app [dot 2] [dot 1; no_draw 4]).
    apply (Permutation_cons_app [dot 2; dot 1] []).
    apply (Permutation_cons_app [dot 2] []). reflexivity.
  - apply (bool_decide_unpack _). vm_compute. exact I.
Defined.

End renderer_order.

(** ** The update step over one tick and over many *)

Section ticks.

Implicit Types (g : Game.t) (s : Sprite.t) (keys : Keys).

(** The displacement the pressed keys ask for, per axis. *)
Lemma move_displacement g keys s :
  Game.move g keys s
  = Sprite.place s
      (Sprite.x s - (if K_LEFT keys then Game.MOVE_SPEED g else 0)
                  + (if K_RIGHT keys then Game.MOVE_SPEED g else 0))
      (Sprite.y s - (if K_UP keys then Game.MOVE_SPEED g else 0)
                  + (if K_DOWN keys then Game.MOVE_SPEED g else 0)).
Proof.
  destruct s, keys as [[] [] [] []];
    unfold Game.move, Sprite.place, Sprite.set_x, Sprite.set_y; simpl;
    f_equal; lia.
Qed.

Lemma tick_cases g keys s :
  Game.as_set_up g → Game.clear g s →
  (Game.clear g (Game.move g keys s)
   ∧ Game.update_game_state g keys s = Ok (Game.move g keys s))
  ∨ (¬ Game.clear g (Game.move g keys s)
     ∧ Game.update_game_state g keys s = Ok s).
Proof.
  intros Hset Hclear. pose proof Hset as (Ht & Hrect & _).
  unfold Game.update_game_state.
  destruct (resolve_cases g Ht Hrect keys s) as [[Hfree ->]|[Hhit ->]];
    rewrite bind_Ok, clamp_clear by done; [left|right]; done.
Qed.

(** X11. In the setting of the demo, a tick that starts from a clear
    position makes either the whole move the keys ask for or no move at
    all: when the four corners of the moved box are free the sprite is
    displaced by [MOVE_SPEED] on every axis with one key held, and when any
    of them hits the sprite stays where it was on both axes. *)
Theorem update_game_state_all_or_nothing g keys s :
  Game.as_set_up g → Game.clear g s →
  (Game.clear g (Game.move g keys s)
   ∧ Game.update_game_state g keys s
     = Ok (Sprite.place s
             (Sprite.x s - (if K_LEFT keys then Game.MOVE_SPEED g else 0)
                         + (if K_RIGHT keys then Game.MOVE_SPEED g else 0))
             (Sprite.y s - (if K_UP keys then Game.MOVE_SPEED g else 0)
                         + (if K_DOWN keys then Game.MOVE_SPEED g else 0))))
  ∨ (¬ Game.clear g (Game.move g keys s)
     ∧ Game.update_game_state g keys s = Ok s).
Proof.
  intros Hset Hclear. rewrite <-move_displacement. by apply tick_cases.
Qed.

Lemma update_game_state_all_or_nothing_witness :
  (Game.clear Demo.g (Game.move Demo.g Demo.LEFT_DOWN Demo.player)
   ∧ Game.update_game_state Demo.g Demo.LEFT_DOWN Demo.player
     = Ok (Sprite.place Demo.player (20 - 2 + 0) (20 - 0 + 2)))
  ∨ (¬ Game.clear Demo.g (Game.move Demo.g Demo.LEFT_DOWN Demo.player)
     ∧ Game.update_game_state Demo.g Demo.LEFT_DOWN Demo.player
       = Ok Demo.player).
Proof.
  apply (update_game_state_all_or_nothing Demo.g Demo.LEFT_DOWN Demo.player).
  - exact demo_as_set_up.
  - exact demo_player_clear.
Defined.

(** X12. With no key held, or with opposite keys held together, a tick
    from a clear position returns the sprite unchanged. *)
Theorem update_game_state_idle g keys s :
  Game.as_set_up g → Game.clear g s →
  K_LEFT keys = K_RIGHT keys → K_UP keys = K_DOWN keys →
  Game.update_game_state g keys s = Ok s.
Proof.
  intros Hset Hclear Hlr Hud.
  assert (Game.move g keys s = s) as Hmove.
  { transitivity (Sprite.place s (Sprite.x s) (Sprite.y s));
      [|apply place_same].
    rewrite move_displacement, <-Hlr, <-Hud. f_equal; lia. }
  destruct (tick_cases g keys s Hset Hclear) as [[_ ->]|[_ ->]]; congruence.
Qed.

Lemma update_game_state_idle_witness :
  Game.update_game_state Demo.g (mkKeys true true false false) Demo.player
  = Ok Demo.player.
Proof.
  apply (update_game_state_idle Demo.g (mkKeys true true false false)
           Demo.player).
  - exact demo_as_set_up.
  - exact demo_player_clear.
  - reflexivity.
  - reflexivity.
Defined.

(** X13. In the setting of the demo, any number of ticks from a clear
    position, whatever keys are held in each, never raises and ends at a
    clear position: the sprite never gets into a wall or off the grid, and
    it keeps its size. *)
Theorem ticks_stay_clear g (pressed : list Keys) s :
  Game.as_set_up g → Game.clear g s →
  ∃ s', Game.ticks g pressed s = Ok s'
        ∧ Game.clear g s'
        ∧ Sprite.width s' = Sprite.width s
        ∧ Sprite.height s' = Sprite.height s.
Proof.
  intros Hset. revert s.
  induction pressed as [|keys rest IH]; intros s Hclear; simpl.
  - eauto.
  - destruct (tick_cases g keys s Hset Hclear) as [[Hfree ->]|[_ ->]];
      rewrite bind_Ok.
    + destruct (IH _ Hfree) as (s' & Hs' & Hc & Hw & Hh).
      exists s'. destruct (move_size g keys s) as [Hmw Hmh].
      split; [done|]. split; [done|]. split; congruence.
    + by apply IH.
Qed.

Lemma ticks_stay_clear_witness :
  ∃ s', Game.ticks Demo.g
          [Demo.LEFT; Demo.LEFT; Demo.LEFT_DOWN; Demo.LEFT] Demo.player
        = Ok s'
        ∧ Game.clear Demo.g s'
        ∧ Sprite.width s' = Sprite.width Demo.player
        ∧ Sprite.height s' = Sprite.height Demo.player.
Proof.
  apply (ticks_stay_clear Demo.g
           [Demo.LEFT; Demo.LEFT; Demo.LEFT_DOWN; Demo.LEFT] Demo.player).
  - exact demo_as_set_up.
  - exact demo_player_clear.
Defined.

(** X14. Clamping twice is clamping once, for any sprite and any screen;
    so the sprite a tick returns is one that clamping leaves alone. *)
Theorem clamp_idempotent g s :
  Game.clamp g (Game.clamp g s) = Game.clamp g s
  ∧ ∀ keys s', Game.update_game_state g keys s = Ok s' → Game.clamp g s' = s'.
Proof.
  assert (∀ c, Game.clamp g (Game.clamp g c) = Game.clamp g c) as Hidem.
  { intros c. unfold Game.clamp.
    destruct (SNESRenderer.logical_size (Game.renderer g)) as [lw lh].
    unfold Sprite.set_x, Sprite.set_y, Py.max, Py.min. simpl.
    f_equal; lia. }
  split; [apply Hidem|].
  intros keys s' Hupd. unfold Game.update_game_state in Hupd.
  destruct (Game.resolve g keys s) as [c|e]; [|discriminate].
  rewrite bind_Ok in Hupd. injection Hupd as <-. apply Hidem.
Qed.

End ticks.

(** ** The earlier snapshots: bare subscripts and stepped ranges *)

Section snapshots.

(** A subscript in range from either end, and one out of range. *)
Lemma getitem_cases {A} (l : list A) (i : Z) :
  (0 <= i < Py.len l →
   ∃ a, l !! Z.to_nat i = Some a ∧ Py.getitem l i = Ok a)
  ∧ (- Py.len l <= i < 0 →
     ∃ a, l !! Z.to_nat (Py.len l + i) = Some a ∧ Py.getitem l i = Ok a)
  ∧ (i < - Py.len l ∨ Py.len l <= i → Py.getitem l i = Raise IndexError).
Proof.
  split; [apply getitem_in_range|]. split.
  - intros Hi. unfold Py.getitem, Py.norm_index.
    rewrite (bool_decide_eq_true_2 (i < 0)) by lia.
    rewrite bool_decide_eq_true_2 by lia.
    destruct (lookup_lt_is_Some_2 l (Z.to_nat (Py.len l + i))) as [a Ha].
    { unfold Py.len in *. lia. }
    exists a. split; [done|].
    replace (i + Py.len l) with (Py.len l + i) by lia. by rewrite Ha.
  - intros Hi. unfold Py.getitem, Py.norm_index.
    destruct (decide (i < 0)) as [Hneg|Hpos].
    + rewrite (bool_decide_eq_true_2 (i < 0)) by done.
      rewrite bool_decide_eq_false_2; [done | lia].
    + rewrite (bool_decide_eq_false_2 (i < 0)) by done.
      rewrite bool_decide_eq_true_2 by lia.
      rewrite lookup_ge_None_2; [done|]. unfold Py.len in *. lia.
Qed.

(** X15. [TileSet.get] of [2.py] checks the index and then subscripts
    with it all the same: an index in range returns that tile, an index
    from [-len] to -1 returns the tile counted from the end, and any other
    index raises [IndexError]. *)
Theorem snapshot2_get_subscript (tiles : list Surface.t) (index : Z) :
  (0 <= index < Py.len tiles →
   ∃ tile, tiles !! Z.to_nat index = Some tile
           ∧ Snapshot2.TileSet_get tiles index = Ok tile)
  ∧ (- Py.len tiles <= index < 0 →
     ∃ tile, tiles !! Z.to_nat (Py.len tiles + index) = Some tile
             ∧ Snapshot2.TileSet_get tiles index = Ok tile)
  ∧ (index < - Py.len tiles ∨ Py.len tiles <= index →
     Snapshot2.TileSet_get tiles index = Raise IndexError).
Proof.
  assert (Snapshot2.TileSet_get tiles index = Py.getitem tiles index) as ->.
  { unfold Snapshot2.TileSet_get. by case_bool_decide. }
  apply getitem_cases.
Qed.

Lemma snapshot2_get_subscript_witness :
  ∃ tile, [Surface.mk 1 1 [[(0, 180, 0, 255)]];
           Surface.mk 1 1 [[(0, 0, 200, 255)]]] !! 0%nat = Some tile
          ∧ Snapshot2.TileSet_get
              [Surface.mk 1 1 [[(0, 180, 0, 255)]];
               Surface.mk 1 1 [[(0, 0, 200, 255)]]] (-2) = Ok tile.
Proof.
  apply (proj1 (proj2 (snapshot2_get_subscript
           [Surface.mk 1 1 [[(0, 180, 0, 255)]];
            Surface.mk 1 1 [[(0, 0, 200, 255)]]] (-2)))).
  unfold Py.len; simpl; lia.
Defined.

Lemma norm_index_mod {A} (l : list A) (i : Z) :
  - Py.len l <= i < Py.len l →
  Py.norm_index l i = i `mod` Py.len l ∧ 0 <= i `mod` Py.len l < Py.len l.
Proof.
  intros Hi. unfold Py.norm_index. split; [|apply Z.mod_pos_bound; lia].
  case_bool_decide.
  - rewrite <-(Z_mod_plus_full i 1 (Py.len l)).
    rewrite Z.mod_small; lia.
  - rewrite Z.mod_small; lia.
Qed.

Lemma norm_index_out {A} (l : list A) (i : Z) :
  ¬ (- Py.len l <= i < Py.len l) →
  ¬ (0 <= Py.norm_index l i < Py.len l).
Proof. unfold Py.norm_index. case_bool_decide; lia. Qed.

Lemma getitem_mod {A} (l : list A) (i : Z) :
  - Py.len l <= i < Py.len l →
  ∃ a, l !! Z.to_nat (i `mod` Py.len l) = Some a ∧ Py.getitem l i = Ok a.
Proof.
  intros Hi. destruct (norm_index_mod l i Hi) as [Hn Hr].
  unfold Py.getitem. rewrite Hn. rewrite bool_decide_eq_true_2 by lia.
  destruct (lookup_lt_is_Some_2 l (Z.to_nat (i `mod` Py.len l))) as [a Ha].
  { unfold Py.len in *. lia. }
  exists a. by rewrite Ha.
Qed.

Lemma getitem_out {A} (l : list A) (i : Z) :
  ¬ (- Py.len l <= i < Py.len l) → Py.getitem l i = Raise IndexError.
Proof.
  intros Hi. apply norm_index_out in Hi. unfold Py.getitem.
  case_bool_decide; [|done].
  rewrite lookup_ge_None_2; [done|]. unfold Py.len in *. lia.
Qed.

Lemma setitem_mod {A} (l : list A) (i : Z) (v : A) :
  - Py.len l <= i < Py.len l →
  Py.setitem l i v = Ok (<[Z.to_nat (i `mod` Py.len l) := v]> l).
Proof.
  intros Hi. destruct (norm_index_mod l i Hi) as [Hn Hr].
  unfold Py.setitem. rewrite Hn. by rewrite bool_decide_eq_true_2.
Qed.

Lemma setitem_out {A} (l : list A) (i : Z) (v : A) :
  ¬ (- Py.len l <= i < Py.len l) → Py.setitem l i v = Raise IndexError.
Proof.
  intros Hi. apply norm_index_out in Hi. unfold Py.setitem.
  by rewrite bool_decide_eq_false_2.
Qed.

(** X16. [set_tile] of [1.py] has no bounds check.  On [h] rows of [w]
    cells, a coordinate from [-w] to [w - 1] and from [-h] to [h - 1] is
    written, a negative one counting from the right or bottom edge (cell
    [x mod w] of row [y mod h]); any other coordinate raises [IndexError]
    and nothing is returned. *)
Theorem snapshot1_set_tile_subscript (map : list (list Z)) (w h x y k : Z) :
  Py.len map = h → Forall (λ row, Py.len row = w) map →
  (- h <= y < h ∧ - w <= x < w →
   ∃ row, map !! Z.to_nat (y `mod` h) = Some row
          ∧ Snapshot1.set_tile map x y k
            = Ok (<[Z.to_nat (y `mod` h) :=
                      <[Z.to_nat (x `mod` w) := k]> row]> map))
  ∧ (¬ (- h <= y < h ∧ - w <= x < w) →
     Snapshot1.set_tile map x y k = Raise IndexError).
Proof.
  intros Hh Hw. unfold Snapshot1.set_tile. split.
  - intros [Hy Hx]. subst h.
    destruct (getitem_mod map y Hy) as (row & Hrow & ->).
    pose proof (Forall_lookup_1 _ _ _ _ Hw Hrow) as Hlen. simpl in Hlen.
    exists row. split; [done|].
    rewrite bind_Ok, setitem_mod, bind_Ok by lia.
    rewrite Hlen. by rewrite setitem_mod.
  - intros Hout. subst h.
    destruct (decide (- Py.len map <= y < Py.len map)) as [Hy|Hy].
    + destruct (getitem_mod map y Hy) as (row & Hrow & ->).
      pose proof (Forall_lookup_1 _ _ _ _ Hw Hrow) as Hlen. simpl in Hlen.
      rewrite bind_Ok, setitem_out; [done | lia].
    + by rewrite getitem_out.
Qed.

Lemma snapshot1_set_tile_subscript_witness :
  ∃ row, [[0; 0; 0]; [0; 0; 0]] !! Z.to_nat ((-1) `mod` 2) = Some row
         ∧ Snapshot1.set_tile [[0; 0; 0]; [0; 0; 0]] (-3) (-1) 7
           = Ok (<[Z.to_nat ((-1) `mod` 2) :=
                     <[Z.to_nat ((-3) `mod` 3) := 7]> row]>
                   [[0; 0; 0]; [0; 0; 0]]).
Proof.
  apply (proj1 (snapshot1_set_tile_subscript
                  [[0; 0; 0]; [0; 0; 0]] 3 2 (-3) (-1) 7
                  eq_refl ltac:(repeat constructor))).
  lia.
Defined.

(** The elements of a stepped range: [n] of them, [step] apart. *)
Lemma range_from_steps (n fuel : nat) (start stop step : Z) :
  0 < step → (n <= fuel)%nat →
  stop <= start + Z.of_nat n * step →
  (n = 0%nat ∨ start + Z.of_nat n * step - step < stop) →
  Py.range_from fuel start stop step
  = (λ i : nat, start + Z.of_nat i * step) <$> seq 0 n.
Proof.
  intros Hstep. revert fuel start.
  induction n as [|n IH]; intros fuel start Hfuel Hup Hlo.
  - destruct fuel; simpl; [done|].
    rewrite bool_decide_eq_false_2; [done | lia].
  - destruct fuel as [|fuel]; [lia|]. destruct Hlo as [|Hlo]; [done|]. simpl.
    rewrite bool_decide_eq_true_2 by nia. f_equal; [lia|].
    rewrite (IH fuel (start + step)); [|lia|lia|].
    + rewrite <-fmap_S_seq, <-list_fmap_compose.
      apply list_fmap_ext. intros _ i _. simpl. lia.
    + destruct n; [by left | right; lia].
Qed.

Lemma range3_steps (stop step : Z) :
  1 <= step → 0 <= stop →
  Py.range3 0 stop step
  = Ok ((λ z, z * step) <$> Py.range ((stop + step - 1) `div` step)).
Proof.
  intros Hstep Hstop. unfold Py.range3.
  rewrite bool_decide_eq_false_2, bool_decide_eq_true_2 by lia. f_equal.
  pose proof (Z.div_mod (stop + step - 1) step ltac:(lia)) as Hdm.
  pose proof (Z.mod_pos_bound (stop + step - 1) step ltac:(lia)) as Hmod.
  assert (0 <= (stop + step - 1) `div` step) as Hq by (apply Z.div_pos; lia).
  rewrite (range_from_steps (Z.to_nat ((stop + step - 1) `div` step))).
  - unfold Py.range. rewrite <-list_fmap_compose.
    apply list_fmap_ext. intros _ i _. simpl. lia.
  - lia.
  - nia.
  - nia.
  - destruct (decide ((stop + step - 1) `div` step = 0)); [left|right]; nia.
Qed.

Lemma for_each_fmap {A B S} (f : A → B) (l : list A)
    (body : B → S → result S) (acc : S) :
  Py.for_each (f <$> l) body acc = Py.for_each l (λ a, body (f a)) acc.
Proof.
  revert acc. induction l as [|a l IH]; intros acc; simpl; [done|].
  destruct (body (f a) acc); simpl; [apply IH | done].
Qed.

(** A loop whose steps can only return or raise [e] raises [e] as soon as
    one step raises whatever it is given. *)
Lemma for_each_raises {A S} (l : list A) (body : A → S → result S)
    (e : exn) (acc : S) :
  (∀ a acc, body a acc = Raise e ∨ ∃ acc', body a acc = Ok acc') →
  (∃ a, a ∈ l ∧ ∀ acc, body a acc = Raise e) →
  Py.for_each l body acc = Raise e.
Proof.
  intros Hbody (bad & Hin & Hbad). revert acc.
  induction l as [|a l IH]; intros acc; [by apply elem_of_nil in Hin|].
  simpl. destruct (Hbody a acc) as [->|[acc' Hok]]; [done|].
  rewrite Hok, bind_Ok. apply IH.
  apply elem_of_cons in Hin as [->|Hin]; [|done].
  rewrite Hbad in Hok. discriminate.
Qed.

Lemma for_each_raise_or_ok {A S} (l : list A) (body : A → S → result S)
    (e : exn) (acc : S) :
  (∀ a acc, body a acc = Raise e ∨ ∃ acc', body a acc = Ok acc') →
  Py.for_each l body acc = Raise e ∨ ∃ acc', Py.for_each l body acc = Ok acc'.
Proof.
  intros Hbody. revert acc.
  induction l as [|a l IH]; intros acc; simpl; [eauto|].
  destruct (Hbody a acc) as [->|[acc' ->]]; [by left|].
  rewrite bind_Ok. apply IH.
Qed.

Lemma subsurface_raise_or_ok (s : Surface.t) (rect : Z * Z * Z * Z) :
  Surface.subsurface s rect = Raise ValueError
  ∨ ∃ sub, Surface.subsurface s rect = Ok sub.
Proof.
  destruct rect as [[[x y] rw] rh]. unfold Surface.subsurface.
  case_bool_decide; eauto.
Qed.

Lemma subsurface_outside (s : Surface.t) (x y rw rh : Z) :
  Surface.get_width s < x + rw ∨ Surface.get_height s < y + rh →
  Surface.subsurface s (x, y, rw, rh) = Raise ValueError.
Proof.
  intros Hout. unfold Surface.subsurface.
  unfold Surface.get_width, Surface.get_height in Hout.
  rewrite bool_decide_eq_false_2; [done | lia].
Qed.

Lemma range_elem_2 (n z : Z) : 0 <= z < n → z ∈ Py.range n.
Proof.
  intros Hz. unfold Py.range. apply list_elem_of_fmap.
  exists (Z.to_nat z). split; [lia|]. apply elem_of_seq. lia.
Qed.

Lemma ceil_div_exact (a b : Z) :
  1 <= b → a `mod` b = 0 → (a + b - 1) `div` b = a `div` b.
Proof.
  intros Hb Hmod. pose proof (Z.div_mod a b ltac:(lia)) as Hdm.
  symmetry. apply (Z.div_unique _ _ _ (b - 1)); lia.
Qed.

Lemma ceil_div_inexact (a b : Z) :
  1 <= b → a `mod` b ≠ 0 → (a + b - 1) `div` b = a `div` b + 1.
Proof.
  intros Hb Hmod. pose proof (Z.div_mod a b ltac:(lia)) as Hdm.
  pose proof (Z.mod_pos_bound a b ltac:(lia)) as Hr.
  symmetry. apply (Z.div_unique _ _ _ (a `mod` b - 1)); lia.
Qed.

Lemma ceil_div_pos (a b : Z) : 1 <= b → 0 < a → 0 < (a + b - 1) `div` b.
Proof. intros Hb Ha. apply Z.div_str_pos. lia. Qed.

Section slicing.

Variable surface : Surface.t.
Variable tile_size : Z.
Hypothesis tile_size_pos : 1 <= tile_size.

Local Abbreviation W := (Surface.get_width surface).
Local Abbreviation H := (Surface.get_height surface).

(** The body of the inner loop of [1.py], and of the outer one. *)
Local Abbreviation cut := (λ (ty tx : Z) (tiles : list Surface.t),
  tile ← Surface.subsurface surface (tx, ty, tile_size, tile_size);
  Ok (tiles ++ [Surface.convert_alpha tile])).

Local Abbreviation cut_row := (λ (ty : Z) (tiles : list Surface.t),
  txs ← Py.range3 0 W tile_size; Py.for_each txs (cut ty) tiles).

Lemma cut_raise_or_ok (ty tx : Z) (tiles : list Surface.t) :
  cut ty tx tiles = Raise ValueError ∨ ∃ tiles', cut ty tx tiles = Ok tiles'.
Proof.
  destruct (subsurface_raise_or_ok surface (tx, ty, tile_size, tile_size))
    as [->|[sub ->]]; [by left|]. right. rewrite bind_Ok. eauto.
Qed.

Lemma cut_row_steps (ty : Z) (tiles : list Surface.t) :
  cut_row ty tiles
  = Py.for_each (Py.range ((W + tile_size - 1) `div` tile_size))
      (λ tx_idx, cut ty (tx_idx * tile_size)) tiles.
Proof.
  rewrite range3_steps by (done || unfold Surface.get_width; lia).
  by rewrite bind_Ok, for_each_fmap.
Qed.

Lemma cut_row_raise_or_ok (ty : Z) (tiles : list Surface.t) :
  cut_row ty tiles = Raise ValueError ∨ ∃ tiles', cut_row ty tiles = Ok tiles'.
Proof.
  pose proof (cut_row_steps ty tiles) as Hrow. cbv beta in Hrow |- *.
  rewrite Hrow. apply for_each_raise_or_ok.
  intros tx_idx acc. apply cut_raise_or_ok.
Qed.

Lemma snapshot1_init_steps :
  Snapshot1.TileSet_init surface tile_size
  = Py.for_each (Py.range ((H + tile_size - 1) `div` tile_size))
      (λ ty_idx, cut_row (ty_idx * tile_size)) [].
Proof.
  unfold Snapshot1.TileSet_init, Surface.get_size.
  rewrite (range3_steps (Z.of_nat (Surface.h surface))) by lia.
  rewrite bind_Ok, for_each_fmap. reflexivity.
Qed.

End slicing.

(** X17. For a tile size of at least 1, [TileSet.__init__] of [1.py]
    slices a sheet whose width and height are both multiples of the tile
    size into the same tiles, in the same order, as the one of
    [5.8.testhdr.py].  When the width is not a multiple (and the sheet has
    some height), or the height is not a multiple (and the sheet has some
    width), it does not truncate: its stepped loops reach the partial cell
    and [subsurface] raises [ValueError]. *)
Theorem snapshot1_init_multiples (surface : Surface.t) (tile_size : Z) :
  1 <= tile_size →
  (Surface.get_width surface `mod` tile_size = 0 →
   Surface.get_height surface `mod` tile_size = 0 →
   Snapshot1.TileSet_init surface tile_size
   = TileSet.tiles <$> TileSet.init surface tile_size)
  ∧ ((Surface.get_width surface `mod` tile_size ≠ 0
      ∧ 0 < Surface.get_height surface)
     ∨ (Surface.get_height surface `mod` tile_size ≠ 0
        ∧ 0 < Surface.get_width surface) →
     Snapshot1.TileSet_init surface tile_size = Raise ValueError).
Proof.
  intros Hts.
  pose proof (Z.div_mod (Surface.get_width surface) tile_size ltac:(lia)) as HW.
  pose proof (Z.mod_pos_bound (Surface.get_width surface) tile_size ltac:(lia))
    as HWr.
  pose proof (Z.div_mod (Surface.get_height surface) tile_size ltac:(lia)) as HH.
  pose proof (Z.mod_pos_bound (Surface.get_height surface) tile_size ltac:(lia))
    as HHr.
  assert (0 <= Surface.get_width surface `div` tile_size) as HWq.
  { apply Z.div_pos; [unfold Surface.get_width|]; lia. }
  assert (0 <= Surface.get_height surface `div` tile_size) as HHq.
  { apply Z.div_pos; [unfold Surface.get_height|]; lia. }
  rewrite snapshot1_init_steps by done. split.
  - intros Hw Hh. rewrite init_tiles by done.
    rewrite (ceil_div_exact _ _ Hts Hh).
    rewrite (for_each_blocks _ _
               (λ ty_idx, (λ tx_idx,
                  Surface.crop surface (tx_idx * tile_size)
                    (ty_idx * tile_size) tile_size tile_size)
                  <$> Py.range (Surface.get_width surface `div` tile_size)));
      [reflexivity|].
    apply Forall_forall. intros ty_idx Hty%range_elem acc.
    pose proof (cut_row_steps surface tile_size Hts (ty_idx * tile_size) acc)
      as Hrow.
    cbv beta in Hrow. rewrite Hrow, (ceil_div_exact _ _ Hts Hw).
    apply (for_each_append _
             (λ tx_idx, Surface.subsurface surface
                (tx_idx * tile_size, ty_idx * tile_size, tile_size, tile_size))
             Surface.convert_alpha).
    apply Forall_forall. intros tx_idx Htx%range_elem.
    by apply cell_inside.
  - intros Hbad. apply for_each_raises.
    { intros ty_idx acc. by apply cut_row_raise_or_ok. }
    destruct Hbad as [[Hw Hh]|[Hh Hw]].
    + exists 0. split.
      { apply range_elem_2. pose proof (ceil_div_pos _ _ Hts Hh). lia. }
      intros acc.
      pose proof (cut_row_steps surface tile_size Hts (0 * tile_size) acc)
        as Hrow.
      cbv beta in Hrow. rewrite Hrow. apply for_each_raises.
      { intros tx_idx acc'. by apply cut_raise_or_ok. }
      exists (Surface.get_width surface `div` tile_size). split.
      { apply range_elem_2. rewrite ceil_div_inexact by done. lia. }
      intros acc'. rewrite subsurface_outside; [done|]. left. lia.
    + exists (Surface.get_height surface `div` tile_size). split.
      { apply range_elem_2. rewrite ceil_div_inexact by done. lia. }
      intros acc.
      pose proof (cut_row_steps surface tile_size Hts
                    (Surface.get_height surface `div` tile_size * tile_size)
                    acc) as Hrow.
      cbv beta in Hrow. rewrite Hrow. apply for_each_raises.
      { intros tx_idx acc'. by apply cut_raise_or_ok. }
      exists 0. split.
      { apply range_elem_2. pose proof (ceil_div_pos _ _ Hts Hw). lia. }
      intros acc'. rewrite subsurface_outside; [done|]. right. lia.
Qed.

Lemma snapshot1_init_multiples_witness :
  Snapshot1.TileSet_init
    (Surface.mk 16 8 (replicate 8 (replicate 16 (0, 0, 0, 255)))) 8
  = TileSet.tiles
      <$> TileSet.init
            (Surface.mk 16 8 (replicate 8 (replicate 16 (0, 0, 0, 255)))) 8.
Proof.
  apply (proj1 (snapshot1_init_multiples
                  (Surface.mk 16 8 (replicate 8 (replicate 16 (0, 0, 0, 255))))
                  8 ltac:(lia)));
    reflexivity.
Defined.

End snapshots.

(** ** Drawing a tile map *)

Section tile_map_draw.

Lemma for_each_singles {A C} (l : list A)
    (body : A → list C → result (list C)) (h : A → C) (acc : list C) :
  Forall (λ a, ∀ acc, body a acc = Ok (acc ++ [h a])) l →
  Py.for_each l body acc = Ok (acc ++ (h <$> l)).
Proof.
  intros Hl. revert acc.
  induction Hl as [|a l Ha _ IH]; intros acc; simpl.
  - by rewrite app_nil_r.
  - rewrite Ha, bind_Ok, IH. by rewrite <-app_assoc.
Qed.

Lemma TileSet_get_returns (self : TileSet.t) (i : Z) :
  0 <= TileSet.tile_size_px self → ∃ tile, TileSet.get self i = Ok tile.
Proof.
  intros Hts. destruct (decide (TileSet.tiles self = [])) as [Hnil|Hne].
  { rewrite get_empty by done. eauto. }
  destruct (decide (0 <= i < TileSet.len self)) as [Hin|Hout].
  - unfold TileSet.get.
    rewrite bool_decide_eq_false_2 by done.
    rewrite bool_decide_eq_true_2 by done.
    destruct (getitem_in_range (TileSet.tiles self) i Hin) as (t & _ & Ht).
    eauto.
  - destruct (get_first self Hne) as (t & Ht0 & Ht).
    exists t. rewrite get_outside by (done || lia).
    by apply getitem_lookup.
Qed.

Variable tm : TileMap.t.
Variable scale : Z.
Hypothesis tile_size_nonneg : 0 <= TileSet.tile_size_px (TileMap.tileset tm).
Hypothesis scale_nonneg : 0 <= scale.

Local Abbreviation trs := (TileSet.tile_size_px (TileMap.tileset tm) * scale).

Local Abbreviation tile_of := (λ index : Z,
  match TileSet.get (TileMap.tileset tm) index with
  | Ok tile => tile
  | Raise _ => Surface.mk 0 0 []
  end).

Local Abbreviation pic_of := (λ tile : Surface.t,
  if bool_decide (scale ≠ 1) then Scaled tile (trs, trs) else Plain tile).

Local Abbreviation blit_of := (λ (y : Z) (cell : Z * Z),
  Blit (pic_of (tile_of cell.2)) (cell.1 * trs, y * trs)).

Lemma at_scale_returns (tile : Surface.t) :
  Draw.at_scale tile scale (trs, trs) = Ok (pic_of tile).
Proof.
  unfold Draw.at_scale, Draw.transform_scale. simpl.
  case_bool_decide; [|done]. rewrite bool_decide_eq_true_2; [done | nia].
Qed.

Lemma draw_row (y : Z) (row : list Z) (acc : list call) :
  Py.for_each (Draw.enumerate row) (λ '(x, index) calls,
    tile_surface ← TileSet.get (TileMap.tileset tm) index;
    scaled_tile_surface ← Draw.at_scale tile_surface scale (trs, trs);
    Ok (calls ++ [Blit scaled_tile_surface (x * trs, y * trs)])) acc
  = Ok (acc ++ (blit_of y <$> Draw.enumerate row)).
Proof.
  apply for_each_singles, Forall_forall. intros [x index] _ calls.
  destruct (TileSet_get_returns (TileMap.tileset tm) index tile_size_nonneg)
    as [tile Htile].
  simpl. rewrite Htile, bind_Ok, at_scale_returns, bind_Ok. done.
Qed.

Lemma draw_rows :
  Draw.TileMap_draw tm scale
  = Ok (mjoin ((λ yr : Z * list Z, blit_of yr.1 <$> Draw.enumerate yr.2)
                 <$> Draw.enumerate (TileMap.map_data tm))).
Proof.
  unfold Draw.TileMap_draw. cbv zeta.
  rewrite (for_each_blocks _ _
             (λ yr : Z * list Z, blit_of yr.1 <$> Draw.enumerate yr.2));
    [reflexivity|].
  apply Forall_forall. intros [y row] _ acc. apply draw_row.
Qed.

End tile_map_draw.

Section tile_map_draw_spec.

(** X18. With a tile size and a scale that are not negative,
    [TileMap.draw] never raises, whatever indices the map holds: it blits
    once per stored cell.  On a rectangular map the blit numbered
    [y * width + x] is the one for cell [(x, y)]: the tile [TileSet.get]
    returns for the index stored there (scaled to the rendered tile size
    unless the scale is 1), at [(x, y)] times the rendered tile size. *)
Theorem TileMap_draw_cells (tm : TileMap.t) (scale : Z) :
  0 <= TileSet.tile_size_px (TileMap.tileset tm) → 0 <= scale →
  ∃ calls,
    Draw.TileMap_draw tm scale = Ok calls
    ∧ length calls = sum_list (length <$> TileMap.map_data tm)
    ∧ (TileMap.rectangular tm →
       ∀ x y, 0 <= x < TileMap.width tm → 0 <= y < TileMap.height tm →
         ∃ index tile,
           TileMap.get_tile_index tm x y = Ok index
           ∧ TileSet.get (TileMap.tileset tm) index = Ok tile
           ∧ calls !! Z.to_nat (y * TileMap.width tm + x)
             = Some (Blit
                 (if bool_decide (scale ≠ 1)
                  then Scaled tile
                         (TileSet.tile_size_px (TileMap.tileset tm) * scale,
                          TileSet.tile_size_px (TileMap.tileset tm) * scale)
                  else Plain tile)
                 (x * (TileSet.tile_size_px (TileMap.tileset tm) * scale),
                  y * (TileSet.tile_size_px (TileMap.tileset tm) * scale)))).
Proof.
  intros Hts Hscale. rewrite draw_rows by done.
  eexists. split; [reflexivity|]. split.
  - rewrite length_join, <-list_fmap_compose. unfold Draw.enumerate.
    rewrite fmap_imap, <-imap_const. f_equal. apply imap_ext.
    intros i row _. simpl. by rewrite length_fmap, length_imap.
  - intros Hrect x y Hx Hy.
    destruct (rectangular_row tm y Hrect Hy) as (row & Hrow & Hw).
    destruct (getitem_in_range row x) as (index & Hindex & _); [lia|].
    destruct (TileSet_get_returns (TileMap.tileset tm) index Hts)
      as [tile Htile].
    exists index, tile.
    split; [by apply (get_tile_index_lookup tm x y row index)|].
    split; [done|].
    replace (Z.to_nat (y * TileMap.width tm + x))
      with (Z.to_nat y * Z.to_nat (TileMap.width tm) + Z.to_nat x)%nat by nia.
    apply (join_lookup_Some_same_length' (Z.to_nat (TileMap.width tm))).
    + apply Forall_fmap, Forall_forall. intros [y' row'] Hin. simpl.
      apply elem_of_lookup_imap in Hin as (i & r & [= -> ->] & Hr).
      rewrite length_fmap. unfold Draw.enumerate. rewrite length_imap.
      destruct Hrect as [_ Hrows].
      pose proof (Forall_lookup_1 _ _ _ _ Hrows Hr) as Hlen. simpl in Hlen.
      unfold Py.len in Hlen. lia.
    + lia.
    + eexists. split.
      * rewrite list_lookup_fmap. unfold Draw.enumerate.
        rewrite list_lookup_imap, Hrow. reflexivity.
      * simpl. rewrite list_lookup_fmap. unfold Draw.enumerate.
        rewrite list_lookup_imap, Hindex. simpl. rewrite Htile.
        by rewrite !Z2Nat.id by lia.
Qed.

Lemma TileMap_draw_cells_witness :
  ∃ calls,
    Draw.TileMap_draw (Game.tilemap Demo.g) 3 = Ok calls
    ∧ length calls = sum_list (length <$> Demo.map_layout)
    ∧ (TileMap.rectangular (Game.tilemap Demo.g) →
       ∀ x y, 0 <= x < 16 → 0 <= y < 14 →
         ∃ index tile,
           TileMap.get_tile_index (Game.tilemap Demo.g) x y = Ok index
           ∧ TileSet.get (TileMap.tileset (Game.tilemap Demo.g)) index = Ok tile
           ∧ calls !! Z.to_nat (y * 16 + x)
             = Some (Blit (if bool_decide (3 ≠ 1)
                           then Scaled tile (16 * 3, 16 * 3)
                           else Plain tile)
                          (x * (16 * 3), y * (16 * 3)))).
Proof.
  apply (TileMap_draw_cells (Game.tilemap Demo.g) 3).
  - by vm_compute.
  - lia.
Defined.

End tile_map_draw_spec.

(** ** The main loop *)

Section main_loop.

Context {I : Type}.
Variable foreign : gmap string Z → gset string → Z → result (list call).

Implicit Types (self : SNESRenderer.t) (events : list event)
  (update_cb : option (I → SNESRenderer.t → result SNESRenderer.t))
  (fps : Z) (frames : list (list event * I)).

(** After the events of a frame the loop is still running exactly when it
    was and none of them closes the window or is the Escape key going down. *)
Lemma poll_quits events (running : bool) :
  Loop.poll events running
  = running && forallb (λ evt, negb (Loop.quits evt)) events.
Proof.
  revert running. induction events as [|evt events IH]; intros running.
  - by rewrite andb_true_r.
  - simpl. rewrite IH. destruct evt as [|key|]; simpl.
    + by rewrite andb_false_r.
    + case_bool_decide; simpl; [by rewrite andb_false_r | done].
    + done.
Qed.

Lemma poll_running events :
  Forall (λ evt, Loop.quits evt = false) events → Loop.poll events true = true.
Proof.
  intros Hall. rewrite poll_quits. simpl.
  induction Hall as [|evt events Hq _ IH]; simpl; [done|].
  by rewrite Hq, IH.
Qed.

Lemma poll_stopped events :
  Exists (λ evt, Loop.quits evt = true) events → Loop.poll events true = false.
Proof.
  intros Hex. rewrite poll_quits. simpl.
  induction Hex as [evt events Hq|evt events _ IH]; simpl.
  - by rewrite Hq.
  - by rewrite IH, andb_false_r.
Qed.

Lemma run_cons self update_cb fps events (input : I)
    (rest : list (list event * I)) :
  Loop.run foreign self update_cb fps ((events, input) :: rest)
  = Loop.frame foreign self update_cb fps input ≫= λ '(self, calls),
      if Loop.poll events true then
        Loop.run foreign self update_cb fps rest ≫= λ '(self, later, still),
          Ok (self, calls ++ later, still)
      else Ok (self, calls ++ [PygameQuit], false).
Proof. reflexivity. Qed.

Lemma play_cons self update_cb fps (input : I) (rest : list I) :
  Loop.play foreign self update_cb fps (input :: rest)
  = Loop.frame foreign self update_cb fps input ≫= λ '(self, calls),
      Loop.play foreign self update_cb fps rest ≫= λ '(self, later),
        Ok (self, calls ++ later).
Proof. reflexivity. Qed.

Lemma run_no_quit self update_cb fps frames :
  Forall (λ f, Forall (λ evt, Loop.quits evt = false) f.1) frames →
  Loop.run foreign self update_cb fps frames
  = Loop.play foreign self update_cb fps (snd <$> frames)
    ≫= λ '(self', calls), Ok (self', calls, true).
Proof.
  intros Hall. revert self.
  induction Hall as [|[events input] frames Hf _ IH]; intros self; [done|].
  rewrite fmap_cons, run_cons, play_cons, poll_running by done.
  change ((events, input).2) with input.
  destruct (Loop.frame foreign self update_cb fps input) as [[s calls]|e];
    [|done].
  rewrite !bind_Ok, IH.
  by destruct (Loop.play foreign s update_cb fps (snd <$> frames))
    as [[s' later]|e].
Qed.

Lemma run_quit self update_cb fps frames events (input : I)
    (rest : list (list event * I)) :
  Forall (λ f, Forall (λ evt, Loop.quits evt = false) f.1) frames →
  Exists (λ evt, Loop.quits evt = true) events →
  Loop.run foreign self update_cb fps (frames ++ (events, input) :: rest)
  = Loop.play foreign self update_cb fps ((snd <$> frames) ++ [input])
    ≫= λ '(self', calls), Ok (self', calls ++ [PygameQuit], false).
Proof.
  intros Hall Hquit. revert self.
  induction Hall as [|[evts inp] frames Hf _ IH]; intros self.
  - rewrite fmap_nil, !app_nil_l, run_cons, play_cons, poll_stopped by done.
    destruct (Loop.frame foreign self update_cb fps input) as [[s calls]|e];
      [|done].
    rewrite !bind_Ok. simpl. by rewrite app_nil_r.
  - rewrite fmap_cons, <-!app_comm_cons, run_cons, play_cons, poll_running
      by done.
    change ((evts, inp).2) with inp.
    destruct (Loop.frame foreign self update_cb fps inp) as [[s calls]|e];
      [|done].
    rewrite !bind_Ok, IH.
    destruct (Loop.play foreign s update_cb fps ((snd <$> frames) ++ [input]))
      as [[s' later]|e]; [|done].
    rewrite !bind_Ok. by rewrite app_assoc.
Qed.

(** X19. [run] plays every frame up to and including the first one in
    which a [QUIT] event or an Escape key press is polled: that frame
    still gets its callback and its drawing, [pygame.quit] follows it, and
    nothing given for later frames is used.  While no such event arrives
    the loop goes on, frame after frame. *)
Theorem run_until_quit self update_cb fps :
  (∀ frames events (input : I) rest,
     Forall (λ f, Forall (λ evt, Loop.quits evt = false) f.1) frames →
     Exists (λ evt, Loop.quits evt = true) events →
     Loop.run foreign self update_cb fps (frames ++ (events, input) :: rest)
     = Loop.play foreign self update_cb fps ((snd <$> frames) ++ [input])
       ≫= λ '(self', calls), Ok (self', calls ++ [PygameQuit], false))
  ∧ (∀ frames,
       Forall (λ f, Forall (λ evt, Loop.quits evt = false) f.1) frames →
       Loop.run foreign self update_cb fps frames
       = Loop.play foreign self update_cb fps (snd <$> frames)
         ≫= λ '(self', calls), Ok (self', calls, true)).
Proof.
  split.
  - intros. by apply run_quit.
  - intros. by apply run_no_quit.
Qed.

End main_loop.

Lemma run_until_quit_witness :
  Loop.run DemoLoop.no_foreign (Game.renderer Demo.g)
    (Some (DemoLoop.update_cb Demo.g)) 60
    ([([OtherEvent], Demo.LEFT)]
       ++ ([KEYDOWN 27], Demo.LEFT_DOWN) :: [([], Demo.NONE)])
  = Loop.play DemoLoop.no_foreign (Game.renderer Demo.g)
      (Some (DemoLoop.update_cb Demo.g)) 60
      ((snd <$> [([OtherEvent], Demo.LEFT)]) ++ [Demo.LEFT_DOWN])
    ≫= λ '(self', calls), Ok (self', calls ++ [PygameQuit], false).
Proof.
  apply (proj1 (run_until_quit DemoLoop.no_foreign (Game.renderer Demo.g)
                  (Some (DemoLoop.update_cb Demo.g)) 60)).
  - repeat constructor.
  - left. reflexivity.
Defined.

(** ** The demo under [run] *)

Section demo_loop.

Variable foreign : gmap string Z → gset string → Z → result (list call).

Implicit Types (g : Game.t) (r : SNESRenderer.t) (s : Sprite.t) (keys : Keys).

Lemma Sprite_draw_returns s (scale : Z) :
  0 <= scale → 0 <= Sprite.width s → 0 <= Sprite.height s →
  Draw.Sprite_draw s scale
  = Ok [Blit (if bool_decide (scale ≠ 1)
              then Scaled (Sprite.surface s)
                     (Sprite.width s * scale, Sprite.height s * scale)
              else Plain (Sprite.surface s))
             (Sprite.x s * scale, Sprite.y s * scale)].
Proof.
  intros Hscale Hw Hh. unfold Draw.Sprite_draw, Draw.at_scale. cbv zeta.
  case_bool_decide; [|done].
  unfold Draw.transform_scale. simpl.
  rewrite bool_decide_eq_true_2; [done | nia].
Qed.

Lemma tick_keeps g keys s :
  Game.as_set_up g → Game.clear g s →
  ∃ s', Game.update_game_state g keys s = Ok s'
        ∧ Game.clear g s'
        ∧ Sprite.surface s' = Sprite.surface s
        ∧ Sprite.width s' = Sprite.width s
        ∧ Sprite.height s' = Sprite.height s.
Proof.
  intros Hset Hclear.
  destruct (tick_cases g keys s Hset Hclear) as [[Hfree ->]|[_ ->]].
  - eexists. split; [done|]. split; [done|].
    destruct s, keys as [[] [] [] []]; done.
  - by exists s.
Qed.

(** One frame of the demo's scene. *)
Lemma frame_scene g r s keys (fps : Z) :
  Game.as_set_up g →
  SNESRenderer.layers r = [OTileMap (Game.tilemap g); OSprite s] →
  Game.clear g s →
  0 <= TileSet.tile_size_px (TileMap.tileset (Game.tilemap g)) →
  0 <= SNESRenderer.scale r →
  0 <= Sprite.width s → 0 <= Sprite.height s →
  ∃ s' tiles,
    Game.update_game_state g keys s = Ok s'
    ∧ Game.clear g s'
    ∧ Sprite.width s' = Sprite.width s ∧ Sprite.height s' = Sprite.height s
    ∧ Draw.TileMap_draw (Game.tilemap g) (SNESRenderer.scale r) = Ok tiles
    ∧ Loop.frame foreign r (Some (DemoLoop.update_cb g)) fps keys
      = Ok (SNESRenderer.mk (SNESRenderer.scale r) (SNESRenderer.logical_size r)
              [OTileMap (Game.tilemap g); OSprite s'],
            Fill BLACK :: tiles
              ++ [Blit (if bool_decide (SNESRenderer.scale r ≠ 1)
                        then Scaled (Sprite.surface s)
                               (Sprite.width s * SNESRenderer.scale r,
                                Sprite.height s * SNESRenderer.scale r)
                        else Plain (Sprite.surface s))
                       (Sprite.x s' * SNESRenderer.scale r,
                        Sprite.y s' * SNESRenderer.scale r);
                  Flip; Tick fps]).
Proof.
  intros Hset Hlayers Hclear Hts Hscale Hw Hh.
  destruct (tick_keeps g keys s Hset Hclear) as (s' & Hs' & Hc' & Hsf & Hw' & Hh').
  exists s'. eexists. split; [done|]. split; [done|]. split; [done|].
  split; [done|]. split; [by apply draw_rows|].
  unfold Loop.frame, DemoLoop.update_cb. rewrite Hlayers, Hs', !bind_Ok.
  simpl. rewrite draw_rows by done. rewrite bind_Ok.
  rewrite Sprite_draw_returns by lia. rewrite !bind_Ok.
  rewrite Hsf, Hw', Hh'. simpl. by rewrite <-app_assoc.
Qed.

(** X20. A frame of the demo's scene (the map, then the player) never
    raises.  The callback runs first, and the frame then clears the
    window, blits the tiles of the map, blits the player at the position
    the callback has just given it, flips and ticks: the player is drawn
    over the map and always where this frame's update left it. *)
Theorem demo_frame g r s keys (fps : Z) :
  Game.as_set_up g →
  SNESRenderer.layers r = [OTileMap (Game.tilemap g); OSprite s] →
  Game.clear g s →
  0 <= TileSet.tile_size_px (TileMap.tileset (Game.tilemap g)) →
  0 <= SNESRenderer.scale r →
  0 <= Sprite.width s → 0 <= Sprite.height s →
  ∃ s' tiles,
    Game.update_game_state g keys s = Ok s'
    ∧ Game.clear g s'
    ∧ Sprite.width s' = Sprite.width s ∧ Sprite.height s' = Sprite.height s
    ∧ Draw.TileMap_draw (Game.tilemap g) (SNESRenderer.scale r) = Ok tiles
    ∧ Loop.frame foreign r (Some (DemoLoop.update_cb g)) fps keys
      = Ok (SNESRenderer.mk (SNESRenderer.scale r) (SNESRenderer.logical_size r)
              [OTileMap (Game.tilemap g); OSprite s'],
            Fill BLACK :: tiles
              ++ [Blit (if bool_decide (SNESRenderer.scale r ≠ 1)
                        then Scaled (Sprite.surface s)
                               (Sprite.width s * SNESRenderer.scale r,
                                Sprite.height s * SNESRenderer.scale r)
                        else Plain (Sprite.surface s))
                       (Sprite.x s' * SNESRenderer.scale r,
                        Sprite.y s' * SNESRenderer.scale r);
                  Flip; Tick fps]).
Proof. apply frame_scene. Qed.

(** X21. Whatever events and keys the frames bring, [run] on the demo's
    scene never raises: it returns with the scene still made of the map
    and the player, and the player at a position that is clear of the
    walls and on the grid. *)
Theorem demo_run_returns g r s (fps : Z) (frames : list (list event * Keys)) :
  Game.as_set_up g →
  SNESRenderer.layers r = [OTileMap (Game.tilemap g); OSprite s] →
  Game.clear g s →
  0 <= TileSet.tile_size_px (TileMap.tileset (Game.tilemap g)) →
  0 <= SNESRenderer.scale r →
  0 <= Sprite.width s → 0 <= Sprite.height s →
  ∃ r' calls still s',
    Loop.run foreign r (Some (DemoLoop.update_cb g)) fps frames
      = Ok (r', calls, still)
    ∧ SNESRenderer.layers r' = [OTileMap (Game.tilemap g); OSprite s']
    ∧ Game.clear g s'.
Proof.
  intros Hset Hlayers Hclear Hts Hscale Hw Hh. revert r s Hlayers Hclear Hscale Hw Hh.
  induction frames as [|[events keys] frames IH];
    intros r s Hlayers Hclear Hscale Hw Hh.
  - exists r, [], true, s. done.
  - destruct (frame_scene g r s keys fps Hset Hlayers Hclear Hts Hscale Hw Hh)
      as (s' & tiles & _ & Hc' & Hw' & Hh' & _ & Hframe).
    rewrite run_cons, Hframe, bind_Ok.
    destruct (Loop.poll events true).
    + destruct (IH (SNESRenderer.mk (SNESRenderer.scale r)
                      (SNESRenderer.logical_size r)
                      [OTileMap (Game.tilemap g); OSprite s']) s' eq_refl Hc')
        as (r' & later & still & s'' & Hrun & Hl & Hc'');
        [exact Hscale | lia | lia |].
      rewrite Hrun, bind_Ok. by eexists _, _, _, s''.
    + by eexists _, _, _, s'.
Qed.

End demo_loop.

Lemma demo_frame_witness :
  ∃ s' tiles,
    Game.update_game_state Demo.g Demo.LEFT Demo.player = Ok s'
    ∧ Game.clear Demo.g s'
    ∧ Sprite.width s' = Sprite.width Demo.player
    ∧ Sprite.height s' = Sprite.height Demo.player
    ∧ Draw.TileMap_draw (Game.tilemap Demo.g) 3 = Ok tiles
    ∧ Loop.frame DemoLoop.no_foreign (Game.renderer Demo.g)
        (Some (DemoLoop.update_cb Demo.g)) 60 Demo.LEFT
      = Ok (SNESRenderer.mk 3 (256, 224)
              [OTileMap (Game.tilemap Demo.g); OSprite s'],
            Fill BLACK :: tiles
              ++ [Blit (if bool_decide (3 ≠ 1)
                        then Scaled (Sprite.surface Demo.player) (8 * 3, 8 * 3)
                        else Plain (Sprite.surface Demo.player))
                       (Sprite.x s' * 3, Sprite.y s' * 3);
                  Flip; Tick 60]).
Proof.
  apply (demo_frame DemoLoop.no_foreign Demo.g (Game.renderer Demo.g)
           Demo.player Demo.LEFT 60).
  - exact demo_as_set_up.
  - vm_compute. reflexivity.
  - exact demo_player_clear.
  - by vm_compute.
  - by vm_compute.
  - by vm_compute.
  - by vm_compute.
Defined.

Lemma demo_run_returns_witness :
  ∃ r' calls still s',
    Loop.run DemoLoop.no_foreign (Game.renderer Demo.g)
      (Some (DemoLoop.update_cb Demo.g)) 60
      [([], Demo.LEFT); ([OtherEvent], Demo.LEFT_DOWN); ([QUIT], Demo.NONE)]
      = Ok (r', calls, still)
    ∧ SNESRenderer.layers r' = [OTileMap (Game.tilemap Demo.g); OSprite s']
    ∧ Game.clear Demo.g s'.
Proof.
  apply (demo_run_returns DemoLoop.no_foreign Demo.g (Game.renderer Demo.g)
           Demo.player 60).
  - exact demo_as_set_up.
  - vm_compute. reflexivity.
  - exact demo_player_clear.
  - by vm_compute.
  - by vm_compute.
  - by vm_compute.
  - by vm_compute.
Defined.
